(** * The assistant bot: address book, records and command handlers

    A shallow embedding of [new-hw-3.py].  Python strings are sequences of
    Unicode code points; objects that the program compares or mutates
    (phones, records) live in an explicit store, so that identity, aliasing
    and the state left behind by a raised exception are all visible. *)

From Stdlib Require Import ZArith NArith List String Ascii Bool Lia.
From stdpp Require Import prelude.

Local Open Scope N_scope.

(** ** Python strings *)

(** A [str] is a list of code points. *)
Abbreviation pystr := (list N).

(** Embeds an ASCII literal of the source. *)
Fixpoint lit (s : string) : pystr :=
  match s with
  | EmptyString => []
  | String a s' => N_of_ascii a :: lit s'
  end.

(** The part of the Unicode character database that the built-ins used by
    the program consult ([str.isdigit], [str.lower], [str.split], [int] and
    the [\d] class of [re]).  The database ships with the interpreter, not
    with the repository; the tables below transcribe it (version 15). *)
Module Unicode.

Definition in_range (c : N) (r : N * N) : bool :=
  (fst r <=? c) && (c <=? snd r).

(** Characters of category Nd come in runs [0..9]; each entry is the code
    point of a zero. *)
Definition decimal_zeros : list N :=
  [ 0x0030; 0x0660; 0x06F0; 0x07C0; 0x0966; 0x09E6; 0x0A66; 0x0AE6;
    0x0B66; 0x0BE6; 0x0C66; 0x0CE6; 0x0D66; 0x0DE6; 0x0E50; 0x0ED0;
    0x0F20; 0x1040; 0x1090; 0x17E0; 0x1810; 0x1946; 0x19D0; 0x1A80;
    0x1A90; 0x1B50; 0x1BB0; 0x1C40; 0x1C50; 0xA620; 0xA8D0; 0xA900;
    0xA9D0; 0xA9F0; 0xAA50; 0xABF0; 0xFF10; 0x104A0; 0x10D30; 0x11066;
    0x110F0; 0x11136; 0x111D0; 0x112F0; 0x11450; 0x114D0; 0x11650;
    0x116C0; 0x11730; 0x118E0; 0x11950; 0x11C50; 0x11D50; 0x11DA0;
    0x11F50; 0x16A60; 0x16AC0; 0x16B50; 0x1D7CE; 0x1D7D8; 0x1D7E2;
    0x1D7EC; 0x1D7F6; 0x1E140; 0x1E2F0; 0x1E4F0; 0x1E950; 0x1FBF0 ].

(** The decimal value of a character, when it has one. *)
Definition decimal_value (c : N) : option N :=
  match find (fun z => in_range c (z, z + 9)) decimal_zeros with
  | Some z => Some (c - z)
  | None => None
  end.

Definition is_decimal (c : N) : bool :=
  match decimal_value c with Some _ => true | None => false end.

(** Characters with Numeric_Type=Digit that are not decimal: superscripts,
    subscripts, circled and parenthesised digits and the like. *)
Definition other_digits : list (N * N) :=
  [ (0x00B2, 0x00B3); (0x00B9, 0x00B9); (0x1369, 0x1371); (0x19DA, 0x19DA);
    (0x2070, 0x2070); (0x2074, 0x2079); (0x2080, 0x2089); (0x2460, 0x2468);
    (0x2474, 0x247C); (0x2488, 0x2490); (0x24EA, 0x24EA); (0x24F5, 0x24FD);
    (0x24FF, 0x24FF); (0x2776, 0x277E); (0x2780, 0x2788); (0x278A, 0x2792);
    (0x10A40, 0x10A43); (0x10E60, 0x10E68); (0x11052, 0x1105A);
    (0x1F100, 0x1F10A) ].

(** [str.isdigit] on one character: Numeric_Type is Digit or Decimal. *)
Definition is_digit (c : N) : bool :=
  is_decimal c || existsb (in_range c) other_digits.

(** Whitespace in the sense of [str.split()], [str.strip()] and [int]. *)
Definition spaces : list (N * N) :=
  [ (0x09, 0x0D); (0x1C, 0x20); (0x85, 0x85); (0xA0, 0xA0);
    (0x1680, 0x1680); (0x2000, 0x200A); (0x2028, 0x2029); (0x202F, 0x202F);
    (0x205F, 0x205F); (0x3000, 0x3000) ].

Definition is_space (c : N) : bool := existsb (in_range c) spaces.

(** Simple lowercase mappings of the capitals of Basic Latin, Latin-1,
    and the basic Greek and Cyrillic alphabets.  Each entry is (first,
    last, offset).  Other code points are left as they are.

    This is a part of [str.lower] only.  [str.lower] also lowercases the
    other cased letters of the database (Latin Extended, the accented
    Greek capitals, the Cyrillic extensions, Armenian and so on), maps
    the Kelvin sign U+212A to [k], writes U+0130 as two characters, and
    writes a capital sigma that ends a word as U+03C2.  On names with
    such characters the keys of the model can differ from the keys of the
    program.  The properties below take [lower] as a function from
    strings to strings: none of their proofs looks into this table, and
    the instances are in Basic Latin. *)
Definition upper_blocks : list (N * N * N) :=
  [ (0x41, 0x5A, 32); (0xC0, 0xD6, 32); (0xD8, 0xDE, 32);
    (0x391, 0x3A1, 32); (0x3A3, 0x3A9, 32);
    (0x400, 0x40F, 80); (0x410, 0x42F, 32) ].

Definition to_lower (c : N) : N :=
  match find (fun b => in_range c (fst b)) upper_blocks with
  | Some b => c + snd b
  | None => c
  end.

End Unicode.

(** The ASCII digits ['0'..'9']. *)
Definition ascii_digit (c : N) : bool := (48 <=? c) && (c <=? 57).

(** ASCII characters. *)
Definition is_ascii (c : N) : bool := c <? 128.

(** [s.isdigit()]: every character is a digit and there is at least one. *)
Definition isdigit (s : pystr) : bool :=
  match s with
  | [] => false
  | _ => forallb Unicode.is_digit s
  end.

(** [s.lower()], character by character, on the blocks of
    [Unicode.upper_blocks]. *)
Definition lower (s : pystr) : pystr := map Unicode.to_lower s.

(** [s.lstrip()] and [s.strip()]. *)
Fixpoint lstrip (s : pystr) : pystr :=
  match s with
  | [] => []
  | c :: s' => if Unicode.is_space c then lstrip s' else s
  end.

Definition strip (s : pystr) : pystr := rev (lstrip (rev (lstrip s))).

(** [s.split()]: the maximal runs of non-whitespace characters.  [cur] is
    the run being read, most recent character first. *)
Fixpoint split_from (cur : pystr) (s : pystr) : list pystr :=
  match s with
  | [] => match cur with [] => [] | _ => [rev cur] end
  | c :: s' =>
      if Unicode.is_space c
      then match cur with
           | [] => split_from [] s'
           | _ => rev cur :: split_from [] s'
           end
      else split_from (c :: cur) s'
  end.

Definition split (s : pystr) : list pystr := split_from [] s.

(** [sep.join(parts)]. *)
Fixpoint join (sep : pystr) (parts : list pystr) : pystr :=
  match parts with
  | [] => []
  | [p] => p
  | p :: ps => p ++ sep ++ join sep ps
  end.

(** [int(t)] for the texts the program converts: an unsigned run of decimal
    digits of any script, surrounded by optional whitespace. *)
Definition int_digits (t : pystr) : option Z :=
  fold_left
    (fun acc c =>
       match acc, Unicode.decimal_value c with
       | Some n, Some v => Some (10 * n + Z.of_N v)%Z
       | _, _ => None
       end)
    t (Some 0%Z).

Definition py_int (t : pystr) : option Z :=
  match strip t with
  | [] => None
  | t' => int_digits t'
  end.

(** ** Calendar dates ([datetime.date]) *)

Local Open Scope Z_scope.

Record date := mkDate { year : Z; month : Z; day : Z }.

Definition is_leap (y : Z) : bool :=
  (y mod 4 =? 0) && (negb (y mod 100 =? 0) || (y mod 400 =? 0)).

Definition days_in_month (y m : Z) : Z :=
  if m =? 2 then (if is_leap y then 29 else 28)
  else if (m =? 4) || (m =? 6) || (m =? 9) || (m =? 11) then 30
  else 31.

Definition MINYEAR : Z := 1.
Definition MAXYEAR : Z := 9999.

(** The range checks of the [date] constructor. *)
Definition valid_date (y m d : Z) : bool :=
  (MINYEAR <=? y) && (y <=? MAXYEAR) && (1 <=? m) && (m <=? 12)
  && (1 <=? d) && (d <=? days_in_month y m).

(** [a <= b] on dates. *)
Definition date_le (a b : date) : bool :=
  (year a <? year b)
  || ((year a =? year b)
      && ((month a <? month b)
          || ((month a =? month b) && (day a <=? day b)))).

(** The day after [t]; [None] past the last representable day. *)
Definition next_day (t : date) : option date :=
  if day t <? days_in_month (year t) (month t)
  then Some (mkDate (year t) (month t) (day t + 1))
  else if month t <? 12
  then Some (mkDate (year t) (month t + 1) 1)
  else if year t <? MAXYEAR
  then Some (mkDate (year t + 1) 1 1)
  else None.

(** [t + timedelta(days=n)]; [None] stands for the [OverflowError]. *)
Fixpoint add_days (n : nat) (t : date) : option date :=
  match n with
  | O => Some t
  | S n' => match next_day t with
            | Some t' => add_days n' t'
            | None => None
            end
  end.

(** ** Exceptions *)

Inductive exn :=
| ValueError (msg : pystr)
| IndexError
| KeyError
| NameError (name : pystr)
| OverflowError (msg : pystr)
| ReferenceError.

(** [str(e)]. *)
Definition exn_str (e : exn) : pystr :=
  match e with
  | ValueError msg => msg
  | IndexError => []
  | KeyError => []
  | NameError name => lit "name '" ++ name ++ lit "' is not defined"
  | OverflowError msg => msg
  | ReferenceError => []
  end.

(** ** [datetime.strptime(text, "%d.%m.%Y")]

    [strptime] compiles the format to a regular expression, takes its first
    match in backtracking order at the start of the text, refuses text that
    continues after the match, converts the three groups with [int] and
    builds the date.  The directives compile to
    [%d = 3[0-1]|[1-2]\d|0[1-9]|[1-9]| [1-9]], [%m = 1[0-2]|0[1-9]|[1-9]]
    and [%Y = \d\d\d\d].  The messages of its errors are shortened:
    they do not quote the text. *)

(** A set of characters: a literal, a range [[lo-hi]] or [\d], which on
    [str] patterns is any decimal digit of the database. *)
Definition charclass := N -> bool.

Definition one (c : N) : charclass := N.eqb c.
Definition range (lo hi : N) : charclass := fun c => (lo <=? c)%N && (c <=? hi)%N.
Definition backslash_d : charclass := Unicode.is_decimal.

(** A named group, given by its alternatives, each a sequence of sets, or
    a literal character. *)
Inductive piece :=
| Group (alts : list (list charclass))
| Lit (c : N).

(** The code points are those of ['0'] (48) to ['9'] (57), of the space
    (32) and of the dot (46). *)
Definition re_d : list (list charclass) :=
  [ [one 51; range 48 49]; [range 49 50; backslash_d]; [one 48; range 49 57];
    [range 49 57]; [one 32; range 49 57] ].

Definition re_m : list (list charclass) :=
  [ [one 49; range 48 50]; [one 48; range 49 57]; [range 49 57] ].

Definition re_Y : list (list charclass) :=
  [ [backslash_d; backslash_d; backslash_d; backslash_d] ].

Definition format_dmY : list piece :=
  [ Group re_d; Lit 46; Group re_m; Lit 46; Group re_Y ].

(** One alternative against the start of [s]: the text it consumes and
    what follows. *)
Fixpoint match_seq (a : list charclass) (s : pystr) : option (pystr * pystr) :=
  match a with
  | [] => Some ([], s)
  | cl :: a' =>
      match s with
      | c :: s' =>
          if cl c
          then match match_seq a' s' with
               | Some (cap, rest) => Some (c :: cap, rest)
               | None => None
               end
          else None
      | [] => None
      end
  end.

(** Every way the pieces match a prefix of [s], in the order a backtracking
    matcher tries them: the captured groups and the unread rest. *)
Fixpoint match_pieces (ps : list piece) (s : pystr) : list (list pystr * pystr) :=
  match ps with
  | [] => [([], s)]
  | Lit c :: ps' =>
      match s with
      | c' :: s' => if (c =? c')%N then match_pieces ps' s' else []
      | [] => []
      end
  | Group alts :: ps' =>
      flat_map
        (fun a =>
           match match_seq a s with
           | Some (cap, rest) =>
               map (fun m => (cap :: fst m, snd m)) (match_pieces ps' rest)
           | None => []
           end)
        alts
  end.

(** [re.match]: the first match. *)
Definition re_match (ps : list piece) (s : pystr) : option (list pystr * pystr) :=
  head (match_pieces ps s).

Definition strptime_dmY (s : pystr) : exn + date :=
  match re_match format_dmY s with
  | None => inl (ValueError (lit "time data does not match format '%d.%m.%Y'"))
  | Some (groups, rest) =>
      match rest with
      | _ :: _ => inl (ValueError (lit "unconverted data remains"))
      | [] =>
          match groups with
          | [d; m; y] =>
              match py_int y, py_int m, py_int d with
              | Some yy, Some mm, Some dd =>
                  if valid_date yy mm dd
                  then inr (mkDate yy mm dd)
                  else inl (ValueError (lit "day is out of range for month"))
              | _, _, _ => inl (ValueError (lit "invalid literal for int()"))
              end
          | _ => inl (ValueError (lit "time data does not match format '%d.%m.%Y'"))
          end
      end
  end.

(** ** Fields *)

(** A [Phone] object.  The class defines no [__eq__], so two phones are
    equal exactly when they are the same object: [phone_id] is the
    object's identity. *)
Record Phone := mkPhone { phone_id : nat; phone_value : pystr }.

(** A [Birthday] object; nothing in the program compares birthdays. *)
Record Birthday := mkBirthday { birthday_value : pystr }.

Module Phone.
(** [Phone.validate_format]. *)
Definition validate_format (value : pystr) : bool :=
  (length value =? 10)%nat && isdigit value.
End Phone.

Module Birthday.
(** [Birthday.validate_format]. *)
Definition validate_format (value : pystr) : bool :=
  match strptime_dmY value with
  | inr _ => true
  | inl _ => false
  end.
End Birthday.

(** [p == q] on phones, and [p in phones], [phones.index(p)]. *)
Definition phone_eqb (p q : Phone) : bool := (phone_id p =? phone_id q)%nat.

Definition phone_in (p : Phone) (l : list Phone) : bool := existsb (phone_eqb p) l.

Fixpoint phone_index (p : Phone) (l : list Phone) : option nat :=
  match l with
  | [] => None
  | q :: l' => if phone_eqb q p then Some O
               else match phone_index p l' with
                    | Some i => Some (S i)
                    | None => None
                    end
  end.

(** ** The store *)

(** A [Record] object: [name.value], [phones] and [birthday]. *)
Record record := mkRecord {
  name : pystr;
  phones : list Phone;
  birthday : option Birthday
}.

(** Python values that reach the operations and the printer. *)
Inductive value :=
| VNone
| VStr (s : pystr)
| VPhone (p : Phone)
| VBirthday (b : Birthday)
| VRecord (r : nat).

(** The program state: the [Record] objects created so far (a reference is
    an index into [heap]), the [data] of the one [AddressBook], a dict kept
    in insertion order, and the identity of the next [Phone] object. *)
Record state := mkState {
  heap : list record;
  data : list (pystr * nat);
  next_phone : nat
}.

Definition initial : state := mkState [] [] 0.

Definition set_heap (h : list record) (st : state) : state :=
  mkState h (data st) (next_phone st).

Definition set_data (d : list (pystr * nat)) (st : state) : state :=
  mkState (heap st) d (next_phone st).

(** A computation returns or raises, and leaves a state either way. *)
Inductive outcome (A : Type) :=
| Ret (a : A)
| Raise (e : exn).
Arguments Ret {A} a.
Arguments Raise {A} e.

Definition M (A : Type) : Type := state -> outcome A * state.

Definition ret {A} (a : A) : M A := fun st => (Ret a, st).

Definition raise {A} (e : exn) : M A := fun st => (Raise e, st).

Definition bind {A B} (m : M A) (k : A -> M B) : M B :=
  fun st =>
    match m st with
    | (Ret a, st') => k a st'
    | (Raise e, st') => (Raise e, st')
    end.

Declare Scope py_scope.
Delimit Scope py_scope with py.
Notation "x <- m ;; k" := (bind m (fun x => k))
  (at level 100, m at next level, right associativity) : py_scope.
Notation "m ;; k" := (bind m (fun _ => k))
  (at level 100, right associativity) : py_scope.
Local Open Scope py_scope.

Definition get_state : M state := fun st => (Ret st, st).

(** Dereferencing; a reference that names no object cannot arise in Python
    and raises [ReferenceError] here. *)
Definition load (self : nat) : M record :=
  fun st =>
    match heap st !! self with
    | Some r => (Ret r, st)
    | None => (Raise ReferenceError, st)
    end.

Definition store (self : nat) (r : record) : M unit :=
  fun st => (Ret tt, set_heap (<[self := r]> (heap st)) st).

(** [Phone(value)]: a new object. *)
Definition Phone_new (v : pystr) : M Phone :=
  fun st =>
    (Ret (mkPhone (next_phone st) v),
     mkState (heap st) (data st) (S (next_phone st))).

(** [Record(name)]: a new object with no phones and no birthday. *)
Definition Record_new (nm : pystr) : M nat :=
  fun st =>
    (Ret (length (heap st)), set_heap (heap st ++ [mkRecord nm [] None]) st).

(** ** Dicts in insertion order *)

Fixpoint dict_get (k : pystr) (d : list (pystr * nat)) : option nat :=
  match d with
  | [] => None
  | (k', v) :: d' => if bool_decide (k' = k) then Some v else dict_get k d'
  end.

(** [d[k] = v]: an existing key keeps its place. *)
Fixpoint dict_set (k : pystr) (v : nat) (d : list (pystr * nat)) : list (pystr * nat) :=
  match d with
  | [] => [(k, v)]
  | (k', v') :: d' =>
      if bool_decide (k' = k) then (k', v) :: d' else (k', v') :: dict_set k v d'
  end.

(** [del d[k]]. *)
Fixpoint dict_del (k : pystr) (d : list (pystr * nat)) : list (pystr * nat) :=
  match d with
  | [] => []
  | (k', v') :: d' =>
      if bool_decide (k' = k) then d' else (k', v') :: dict_del k d'
  end.

(** ** [Record] methods *)

(** [Record.__str__]. *)
Definition record_str (r : record) : pystr :=
  let phone_list := join (lit "; ") (map phone_value (phones r)) in
  let birthday_info :=
    match birthday r with
    | Some b => lit ", Birthday: " ++ birthday_value b
    | None => []
    end in
  lit "Contact name: " ++ name r ++ lit ", phones: " ++ phone_list ++ birthday_info.

Definition add_phone (self : nat) (phone : value) : M unit :=
  match phone with
  | VPhone p =>
      if Phone.validate_format (phone_value p)
      then r <- load self ;;
           store self (mkRecord (name r) (phones r ++ [p]) (birthday r))
      else raise (ValueError (lit "Invalid phone number format."))
  | _ => raise (ValueError (lit "Invalid phone number format."))
  end.

Definition Record_add_birthday (self : nat) (b : value) : M unit :=
  match b with
  | VBirthday bd =>
      if Birthday.validate_format (birthday_value bd)
      then r <- load self ;;
           store self (mkRecord (name r) (phones r) (Some bd))
      else raise (ValueError (lit "Invalid birthday format."))
  | _ => raise (ValueError (lit "Invalid birthday format."))
  end.

(** [phones.remove(p)]: drops the first element equal to [p]. *)
Fixpoint list_remove (p : Phone) (l : list Phone) : list Phone :=
  match l with
  | [] => []
  | q :: l' => if phone_eqb q p then l' else q :: list_remove p l'
  end.

Definition remove_phone (self : nat) (phone : Phone) : M unit :=
  r <- load self ;;
  if phone_in phone (phones r)
  then store self (mkRecord (name r) (list_remove phone (phones r)) (birthday r))
  else raise (ValueError (lit "Phone number not found in the record.")).

Definition edit_phone (self : nat) (old_phone new_phone : Phone) : M unit :=
  r <- load self ;;
  if phone_in old_phone (phones r)
  then match phone_index old_phone (phones r) with
       | Some index =>
           store self (mkRecord (name r) (<[index := new_phone]> (phones r)) (birthday r))
       | None => raise (ValueError (lit "is not in list"))
       end
  else raise (ValueError (lit "Phone number not found in the record.")).

Definition find_phone (self : nat) (phone : Phone) : M pystr :=
  r <- load self ;;
  if phone_in phone (phones r)
  then ret (phone_value phone)
  else raise (ValueError (lit "Phone number not found in the record.")).

(** ** [AddressBook] methods *)

Definition add_record (rec : value) : M unit :=
  match rec with
  | VRecord rid =>
      r <- load rid ;;
      fun st => (Ret tt, set_data (dict_set (lower (name r)) rid (data st)) st)
  | _ => raise (ValueError (lit "Invalid record format."))
  end.

Definition delete (nm : pystr) : M unit :=
  let name_lower := lower nm in
  fun st =>
    match dict_get name_lower (data st) with
    | Some _ => (Ret tt, set_data (dict_del name_lower (data st)) st)
    | None => (Raise (ValueError (lit "Record not found in the address book.")), st)
    end.

Definition find (nm : pystr) : M nat :=
  let name_lower := lower nm in
  fun st =>
    match dict_get name_lower (data st) with
    | Some rid => (Ret rid, st)
    | None => (Raise (ValueError (lit "Record not found in the address book.")), st)
    end.

(** The loop of [get_birthdays_per_week] over [self.data.values()]. *)
Fixpoint birthdays_loop (next_week : date) (records : list nat)
    (birthdays : list pystr) : M (list pystr) :=
  match records with
  | [] => ret birthdays
  | rid :: rest =>
      r <- load rid ;;
      match birthday r with
      | Some b =>
          match strptime_dmY (birthday_value b) with
          | inl e => raise e
          | inr d =>
              if date_le d next_week
              then birthdays_loop next_week rest (birthdays ++ [record_str r])
              else birthdays_loop next_week rest birthdays
          end
      | None => birthdays_loop next_week rest birthdays
      end
  end.

(** [today] is the reading of [datetime.now()]. *)
Definition get_birthdays_per_week (today : date) : M (list pystr) :=
  match add_days 7 today with
  | None => raise (OverflowError (lit "date value out of range"))
  | Some next_week =>
      st <- get_state ;;
      birthdays_loop next_week (map snd (data st)) []
  end.

(** ** Command handlers *)

(** [str(v)], as [print] applies it. *)
Definition value_str (v : value) : M pystr :=
  match v with
  | VNone => ret (lit "None")
  | VStr s => ret s
  | VPhone p => ret (phone_value p)
  | VBirthday b => ret (birthday_value b)
  | VRecord rid => r <- load rid ;; ret (record_str r)
  end.

(** The message [input_error] turns an exception into. *)
Definition error_message (e : exn) : pystr :=
  match e with
  | ValueError _ => lit "Invalid input or contact not found."
  | IndexError => lit "Enter valid input."
  | KeyError => lit "Contact not found."
  | _ => lit "An error occurred: " ++ exn_str e
  end.

(** The decorator: the state is whatever the handler left behind. *)
Definition input_error (func : list pystr -> M value) : list pystr -> M value :=
  fun args st =>
    match func args st with
    | (Ret v, st') => (Ret v, st')
    | (Raise e, st') => (Ret (VStr (error_message e)), st')
    end.

(** The undecorated bodies. *)
Module Body.

Definition add_contact (args : list pystr) : M value :=
  match args with
  | [nm; phone] =>
      rec <- Record_new nm ;;
      p <- Phone_new phone ;;
      add_phone rec (VPhone p) ;;
      add_record (VRecord rec) ;;
      ret (VStr (lit "Contact added."))
  | _ => raise IndexError
  end.

Definition change_contact (args : list pystr) : M value :=
  match args with
  | [nm; phone] =>
      rec <- find nm ;;
      old_phone <- Phone_new phone ;;
      new_phone <- Phone_new phone ;;
      edit_phone rec old_phone new_phone ;;
      ret (VStr (lit "Contact updated."))
  | _ => raise IndexError
  end.

Definition show_phone (args : list pystr) : M value :=
  match args with
  | [nm] => rec <- find nm ;; ret (VRecord rec)
  | _ => raise IndexError
  end.

Definition add_birthday (args : list pystr) : M value :=
  match args with
  | [nm; bd] =>
      rec <- find nm ;;
      Record_add_birthday rec (VBirthday (mkBirthday bd)) ;;
      ret (VStr (lit "Birthday added to the contact."))
  | _ => raise IndexError
  end.

Definition show_birthday (args : list pystr) : M value :=
  match args with
  | [nm] =>
      rec <- find nm ;;
      r <- load rec ;;
      match birthday r with
      | Some _ =>
          rec' <- find nm ;;
          r' <- load rec' ;;
          match birthday r' with
          | Some b => ret (VBirthday b)
          | None => ret VNone
          end
      | None => ret (VStr (lit "Birthday not found."))
      end
  | _ => raise IndexError
  end.

End Body.

Definition add_contact := input_error Body.add_contact.
Definition change_contact := input_error Body.change_contact.
Definition show_phone := input_error Body.show_phone.
Definition add_birthday := input_error Body.add_birthday.
Definition show_birthday := input_error Body.show_birthday.

(** [birthdays(book)] is not decorated. *)
Definition birthdays (today : date) : M value :=
  upcoming_birthdays <- get_birthdays_per_week today ;;
  match upcoming_birthdays with
  | [] => ret (VStr (lit "No upcoming birthdays in the next week."))
  | _ => ret (VStr (join [10%N] upcoming_birthdays))
  end.

(** ** The command loop *)

(** [parse_input]: unpacking an empty split raises [ValueError]. *)
Definition parse_input (user_input : pystr) : M (pystr * list pystr) :=
  match split user_input with
  | cmd :: args => ret (lower (strip cmd), args)
  | [] => raise (ValueError (lit "not enough values to unpack (expected at least 1, got 0)"))
  end.

(** What the module binds to a callable that [main] may call. *)
Inductive callable :=
| Handler (f : list pystr -> M value)
| BookFunction (f : date -> M value).

(** The functions defined at module level that take the book. *)
Definition module_functions : list (string * callable) :=
  [ ("add_contact"%string, Handler add_contact);
    ("change_contact"%string, Handler change_contact);
    ("show_phone"%string, Handler show_phone);
    ("add_birthday"%string, Handler add_birthday);
    ("show_birthday"%string, Handler show_birthday);
    ("birthdays"%string, BookFunction birthdays) ].

(** Evaluating a global name at the moment of the call: a name the module
    does not bind raises [NameError]. *)
Definition load_global (nm : string) : M callable :=
  match List.find (fun b => String.eqb (fst b) nm) module_functions with
  | Some b => ret (snd b)
  | None => raise (NameError (lit nm))
  end.

(** [print(f(args, book))] and [print(f(book))]. *)
Definition print_call (nm : string) (args : list pystr) (today : date) : M pystr :=
  f <- load_global nm ;;
  v <- match f with
       | Handler h => h args
       | BookFunction g => g today
       end ;;
  value_str v.

(** The [try] block of one turn of the loop: what is printed, and whether
    the loop goes on. *)
Definition turn (today : date) (user_input : pystr) : M (pystr * bool) :=
  ca <- parse_input user_input ;;
  let command := fst ca in
  let args := snd ca in
  if bool_decide (command ∈ [lit "close"; lit "exit"]) then ret (lit "Good bye!", false)
  else if bool_decide (command = lit "hello") then ret (lit "How can I help you?", true)
  else if bool_decide (command = lit "add")
  then out <- print_call "add_contact" args today ;; ret (out, true)
  else if bool_decide (command = lit "change")
  then out <- print_call "change_contact" args today ;; ret (out, true)
  else if bool_decide (command = lit "phone")
  then out <- print_call "show_phone" args today ;; ret (out, true)
  else if bool_decide (command = lit "all")
  then out <- print_call "show_all" [] today ;; ret (out, true)
  else if bool_decide (command = lit "add-birthday")
  then out <- print_call "add_birthday" args today ;; ret (out, true)
  else if bool_decide (command = lit "show-birthday")
  then out <- print_call "show_birthday" args today ;; ret (out, true)
  else if bool_decide (command = lit "birthdays")
  then out <- print_call "birthdays" [] today ;; ret (out, true)
  else ret (lit "Invalid command.", true).

(** One turn of [main] with its [except Exception] clause. *)
Definition main_step (today : date) (user_input : pystr) (st : state)
    : pystr * bool * state :=
  match turn today user_input st with
  | (Ret (out, continue), st') => (out, continue, st')
  | (Raise e, st') =>
      (lit "Error: " ++ exn_str e ++ lit ". Please try again.", true, st')
  end.

(** A session: the lines printed for the lines read, until the loop ends. *)
Fixpoint session (today : date) (inputs : list pystr) (st : state)
    : list pystr * state :=
  match inputs with
  | [] => ([], st)
  | line :: rest =>
      match main_step today line st with
      | (out, true, st') =>
          let r := session today rest st' in (out :: fst r, snd r)
      | (out, false, st') => ([out], st')
      end
  end.

(** * Statements

    The vocabulary of the properties: the texts the birthday format
    accepts, calls and what it means for one to fail, the records of the
    book, and the states the program builds. *)

(** The ten Arabic-Indic digits, a phone number no ASCII digit occurs in. *)
Definition arabic_indic_phone : pystr :=
  [0x661; 0x662; 0x663; 0x664; 0x665; 0x666; 0x667; 0x668; 0x669; 0x660]%N.

(** The texts each directive accepts, written out.  A day is one digit
    from 1 to 9, possibly after a zero or a space, or two digits from 10
    to 31. *)
Definition day_text (t : pystr) : bool :=
  match t with
  | [c] => range 49 57 c
  | [a; b] =>
      (one 51 a && range 48 49 b) || (range 49 50 a && Unicode.is_decimal b)
      || (one 48 a && range 49 57 b) || (one 32 a && range 49 57 b)
  | _ => false
  end.

(** One or two digits from 1 to 12. *)
Definition month_text (t : pystr) : bool :=
  match t with
  | [c] => range 49 57 c
  | [a; b] => (one 49 a && range 48 50 b) || (one 48 a && range 49 57 b)
  | _ => false
  end.

(** Four decimal digits. *)
Definition year_text (t : pystr) : bool :=
  (length t =? 4)%nat && forallb Unicode.is_decimal t.

(** [s] reads as day [d], month [m] and year [y]: a day text, a dot, a
    month text, a dot and a year text, with those values. *)
Definition birthday_text (s : pystr) (y m d : Z) : Prop :=
  exists dt mt yt,
    s = dt ++ 46%N :: mt ++ 46%N :: yt
    /\ day_text dt = true /\ month_text mt = true /\ year_text yt = true
    /\ py_int dt = Some d /\ py_int mt = Some m /\ py_int yt = Some y.

(** The number a run of ASCII digits writes. *)
Definition number (t : pystr) : Z :=
  fold_left (fun n c => 10 * n + (Z.of_N c - 48)) t 0.

(** One or two ASCII digits. *)
Definition one_or_two_digits (t : pystr) : bool :=
  match t with
  | [a] => ascii_digit a
  | [a; b] => ascii_digit a && ascii_digit b
  | _ => false
  end.

(** Four ASCII digits. *)
Definition four_ascii_digits (t : pystr) : bool :=
  (length t =? 4)%nat && forallb ascii_digit t.

(** The same reading for texts in ASCII: the day is one or two digits, or
    a space and one digit; the month is one or two digits; the year is
    four digits; [d], [m] and [y] are the numbers they write. *)
Definition ascii_birthday_text (s : pystr) (y m d : Z) : Prop :=
  exists dt mt yt,
    s = dt ++ 46%N :: mt ++ 46%N :: yt
    /\ ((one_or_two_digits dt = true /\ d = number dt)
        \/ (exists c, dt = [32%N; c] /\ ascii_digit c = true /\ d = number [c]))
    /\ one_or_two_digits mt = true /\ m = number mt
    /\ four_ascii_digits yt = true /\ y = number yt.

(** A date whose year is in Arabic-Indic digits, and one written in them
    throughout: 15.08.1990 both times. *)
Definition arabic_indic_year : pystr :=
  lit "15.08." ++ [0x661; 0x669; 0x669; 0x660]%N.

Definition arabic_indic_date : pystr :=
  [0x661; 0x665; 46; 0x660; 0x668; 46; 0x661; 0x669; 0x669; 0x660]%N.

(** A text matches one of the alternatives of a group. *)
Definition alt_match(alts : list (list charclass)) (t : pystr) : Prop :=
  exists a, In a alts /\ Forall2 (fun (cl : charclass) c => cl c = true) a t.

(** What a match of the pieces is: the captured groups and what is left. *)
Fixpoint decomposes (ps : list piece) (s : pystr) (groups : list pystr)
    (rest : pystr) : Prop :=
  match ps with
  | [] => groups = [] /\ s = rest
  | Lit c :: ps' => exists s', s = c :: s' /\ decomposes ps' s' groups rest
  | Group alts :: ps' =>
      exists cap groups' mid,
        alt_match alts cap /\ s = cap ++ mid /\ groups = cap :: groups'
        /\ decomposes ps' mid groups' rest
  end.

(** The decorated command handlers. *)
Inductive handler :=
| HAddContact
| HChangeContact
| HShowPhone
| HAddBirthday
| HShowBirthday.

(** One call of the program's interface: a [Record] method, an
    [AddressBook] method or a command handler. *)
Inductive call :=
| NewRecord (nm : pystr)
| AddPhone (self : nat) (phone : value)
| AddBirthday (self : nat) (b : value)
| RemovePhone (self : nat) (phone : Phone)
| EditPhone (self : nat) (old_phone new_phone : Phone)
| FindPhone (self : nat) (phone : Phone)
| AddRecord (rec : value)
| Delete (nm : pystr)
| Find (nm : pystr)
| BirthdaysPerWeek (today : date)
| Command (h : handler) (args : list pystr)
| Birthdays (today : date).

(** The decorated handlers, as the command loop calls them. *)
Definition handler_fun (h : handler) : list pystr -> M value :=
  match h with
  | HAddContact => add_contact
  | HChangeContact => change_contact
  | HShowPhone => show_phone
  | HAddBirthday => add_birthday
  | HShowBirthday => show_birthday
  end.

(** Runs a call; the list [get_birthdays_per_week] returns is dropped. *)
Definition run (c : call) : M value :=
  match c with
  | NewRecord nm => rid <- Record_new nm ;; ret (VRecord rid)
  | AddPhone self phone => add_phone self phone ;; ret VNone
  | AddBirthday self b => Record_add_birthday self b ;; ret VNone
  | RemovePhone self phone => remove_phone self phone ;; ret VNone
  | EditPhone self old_phone new_phone => edit_phone self old_phone new_phone ;; ret VNone
  | FindPhone self phone => s <- find_phone self phone ;; ret (VStr s)
  | AddRecord rec => add_record rec ;; ret VNone
  | Delete nm => delete nm ;; ret VNone
  | Find nm => rid <- find nm ;; ret (VRecord rid)
  | BirthdaysPerWeek today => get_birthdays_per_week today ;; ret VNone
  | Command h args => handler_fun h args
  | Birthdays today => birthdays today
  end.

(** The state after a sequence of calls, failed ones included. *)
Definition run_all (calls : list call) (st : state) : state :=
  fold_left (fun s c => snd (run c s)) calls st.

(** [s.startswith(p)]. *)
Fixpoint starts_with (p s : pystr) : bool :=
  match p, s with
  | [], _ => true
  | a :: p', b :: s' => (a =? b)%N && starts_with p' s'
  | _ :: _, [] => false
  end.

(** The texts [input_error] returns for an exception. *)
Definition is_error_text (s : pystr) : bool :=
  bool_decide (s = lit "Invalid input or contact not found.")
  || bool_decide (s = lit "Enter valid input.")
  || bool_decide (s = lit "Contact not found.")
  || starts_with (lit "An error occurred: ") s.

(** A call fails when it raises or, for a handler, when it returns one of
    the error texts. *)
Definition failed (c : call) (o : outcome value) : bool :=
  match o with
  | Raise _ => true
  | Ret (VStr s) => match c with Command _ _ => is_error_text s | _ => false end
  | Ret _ => false
  end.

(** The records of the book, in the order of its entries. *)
Definition entries (st : state) : list record :=
  omap (fun kv : pystr * nat => heap st !! snd kv) (data st).

(** The record has a birthday, and that birthday, read as a date with its
    year, is not later than [next_week]. *)
Definition upcoming (next_week : date) (r : record) : bool :=
  match birthday r with
  | Some b =>
      match strptime_dmY (birthday_value b) with
      | inr d => date_le d next_week
      | inl _ => false
      end
  | None => false
  end.

(** [a] is the day [b] or an earlier one: the years decide, then the
    months, then the days. *)
Definition on_or_before (a b : date) : Prop :=
  year a < year b
  \/ (year a = year b
      /\ (month a < month b \/ (month a = month b /\ day a <= day b))).

(** The record has a birthday, its text reads as the day [d] of the month
    [m] of the year [y], a day of the calendar, and that day is
    [next_week] or an earlier one. *)
Definition due (next_week : date) (r : record) : Prop :=
  exists b y m d,
    birthday r = Some b
    /\ birthday_text (birthday_value b) y m d /\ valid_date y m d = true
    /\ on_or_before (mkDate y m d) next_week.

(** Texts written one after the other with [sep] between them. *)
Definition separated (sep : pystr) (parts : list pystr) : pystr :=
  match parts with
  | [] => []
  | p :: ps => p ++ flat_map (fun q => sep ++ q) ps
  end.

(** The one-line summary of a record: the name, the phones with a
    semicolon and a space between them and, when the record has one, the
    birthday. *)
Definition summary (r : record) : pystr :=
  lit "Contact name: " ++ name r ++ lit ", phones: "
  ++ separated (lit "; ") (map phone_value (phones r))
  ++ match birthday r with
     | Some b => lit ", Birthday: " ++ birthday_value b
     | None => []
     end.

(** The days since the last day of the year 0, as [date.toordinal]
    counts them: the days of the years before, of the months before in the
    year, and of the month. *)
Definition days_before_year (y : Z) : Z :=
  365 * (y - 1) + (y - 1) / 4 - (y - 1) / 100 + (y - 1) / 400.

Definition days_before_month (y m : Z) : Z :=
  fold_right Z.add 0 (map (fun k => days_in_month y (Z.of_nat k)) (seq 1 (Z.to_nat (m - 1)))).

Definition ordinal (t : date) : Z :=
  days_before_year (year t) + days_before_month (year t) (month t) + day t.

Definition is_date (t : date) : Prop :=
  valid_date (year t) (month t) (day t) = true.

(** Records as the program builds them: every stored phone is an object
    created earlier, and the stored birthday passed validation. *)
Definition record_ok (np : nat) (r : record) : bool :=
  forallb (fun p => phone_id p <? np)%nat (phones r)
  && match birthday r with
     | Some b => Birthday.validate_format (birthday_value b)
     | None => true
     end.

(** A state is well formed when its records are, and every entry of the
    book refers to one of them. *)
Definition well_formed (st : state) : bool :=
  forallb (record_ok (next_phone st)) (heap st)
  && forallb (fun kv : pystr * nat => snd kv <? length (heap st))%nat (data st).

(** Every entry is stored under the lowercased name of its record. *)
Definition keys_normalized (st : state) : Prop :=
  forall k rid, In (k, rid) (data st) ->
    exists r, heap st !! rid = Some r /\ lower (name r) = k.

(** The state after [add John 1234567890]. *)
Definition john_state : state :=
  mkState [mkRecord (lit "John") [mkPhone 0 (lit "1234567890")] None]
          [(lit "john", 0%nat)] 1.

(** A reading of the clock. *)
Definition a_day : date := mkDate 2024 8 10.

(** The function a handler decorates. *)
Definition handler_body (h : handler) : list pystr -> M value :=
  match h with
  | HAddContact => Body.add_contact
  | HChangeContact => Body.change_contact
  | HShowPhone => Body.show_phone
  | HAddBirthday => Body.add_birthday
  | HShowBirthday => Body.show_birthday
  end.

(** The book's dict is the same and every record object is the same;
    objects nothing refers to may have been created. *)
Definition book_kept (st st' : state) : Prop :=
  data st' = data st /\ exists garbage, heap st' = heap st ++ garbage.

(** A computation preserves a property of states, however it ends. *)
Definition preserves (P : state -> Prop) {A} (m : M A) : Prop :=
  forall st, P st -> P (snd (m st)).

(** The birthday of the record, if it has one, passes validation. *)
Definition birthday_ok (r : record) : bool :=
  match birthday r with
  | Some b => Birthday.validate_format (birthday_value b)
  | None => true
  end.

(** Every entry of the book refers to a record, and the birthday stored in
    it, if any, passes validation (as it did when [add_birthday] stored
    it). *)
Definition book_ok (st : state) : bool :=
  forallb (fun kv : pystr * nat =>
             match heap st !! snd kv with
             | Some r => birthday_ok r
             | None => false
             end) (data st).

Definition wf (st : state) : Prop := well_formed st = true.

(** No two entries have the same key. *)
Definition keys_unique (st : state) : Prop := NoDup (map fst (data st)).

(** John with a birthday long past, Ann with none, and Bob born in a year
    still to come. *)
Definition three_contacts : state :=
  snd (session a_day
         [lit "add John 1234567890"; lit "add-birthday John 15.08.1990";
          lit "add Ann 1112223334";
          lit "add Bob 5556667778"; lit "add-birthday Bob 11.08.2031"] initial).

(** A reading of the clock in the last week of a February of 29 days; the
    seventh day after it is the third of March. *)
Definition a_leap_february_day : date := mkDate 2024 2 25.

(** Six contacts, entered in another order than their records were made:
    Eve, born on the seventh day after that reading; Ann, with no
    birthday; Bob, born on an earlier day of March, of a year still to
    come; John, with two phones, born in a later month of a year long
    past; Dan, born on the eighth day after the reading; Kim, born on the
    29th of February. *)
Definition six_contacts : state :=
  mkState
    [ mkRecord (lit "John")
        [mkPhone 0 (lit "1234567890"); mkPhone 1 (lit "0987654321")]
        (Some (mkBirthday (lit "15.08.1990")));
      mkRecord (lit "Ann") [mkPhone 2 (lit "1112223334")] None;
      mkRecord (lit "Bob") [mkPhone 3 (lit "5556667778")]
        (Some (mkBirthday (lit "01.03.2031")));
      mkRecord (lit "Eve") [mkPhone 4 (lit "5550001111")]
        (Some (mkBirthday (lit "03.03.2024")));
      mkRecord (lit "Dan") [mkPhone 5 (lit "5550002222")]
        (Some (mkBirthday (lit "04.03.2024")));
      mkRecord (lit "Kim") [mkPhone 6 (lit "5550003333")]
        (Some (mkBirthday (lit "29.02.2024"))) ]
    [ (lit "eve", 3%nat); (lit "ann", 1%nat); (lit "bob", 2%nat);
      (lit "john", 0%nat); (lit "dan", 4%nat); (lit "kim", 5%nat) ]
    7.

(** The code points of a range of the tables. *)
Definition enum_range (r : N * N) : list N :=
  map N.of_nat (seq (N.to_nat (fst r)) (S (N.to_nat (snd r) - N.to_nat (fst r)))).

(** A word of a command line: not empty, and free of whitespace. *)
Definition token (t : pystr) : bool :=
  match t with
  | [] => false
  | _ => forallb (fun c => negb (Unicode.is_space c)) t
  end.

(** A run of whitespace, possibly empty. *)
Definition blank (s : pystr) : bool := forallb Unicode.is_space s.

(** The command word of a line, as [parse_input] normalizes it. *)
Definition command_of (s : pystr) : option pystr :=
  match split s with
  | cmd :: _ => Some (lower (strip cmd))
  | [] => None
  end.

(** The line starts with one of the three commands that write. *)
Definition changes_state (s : pystr) : bool :=
  match command_of s with
  | Some c => bool_decide (c ∈ [lit "add"; lit "change"; lit "add-birthday"])
  | None => false
  end.

(** A date as a user writes it: [DD.MM.YYYY] in ASCII digits, with
    leading zeros. *)
Definition digit_char (n : Z) : N := (48 + Z.to_N n)%N.

Definition two_digits (n : Z) : pystr :=
  [digit_char (n / 10); digit_char (n mod 10)].

Definition four_digits (n : Z) : pystr :=
  [digit_char (n / 1000); digit_char (n / 100 mod 10);
   digit_char (n / 10 mod 10); digit_char (n mod 10)].

Definition write_date (y m d : Z) : pystr :=
  two_digits d ++ 46%N :: two_digits m ++ 46%N :: four_digits y.

(** The record holds exactly one phone, of valid format. *)
Definition one_valid_phone (r : record) : Prop :=
  exists p, phones r = [p] /\ Phone.validate_format (phone_value p) = true.

(** What [add] answers: the arity is checked first, then the phone. *)
Definition add_contact_message (args : list pystr) : pystr :=
  match args with
  | [_; phone] =>
      if Phone.validate_format phone
      then lit "Contact added."
      else lit "Invalid input or contact not found."
  | _ => lit "Enter valid input."
  end.

(** What the command [phone] prints: the rendering of the whole record. *)
Definition phone_output (st : state) (args : list pystr) : pystr :=
  match args with
  | [nm] =>
      match dict_get (lower nm) (data st) with
      | Some rid =>
          match heap st !! rid with
          | Some r => record_str r
          | None => []
          end
      | None => lit "Invalid input or contact not found."
      end
  | _ => lit "Enter valid input."
  end.

(** What the command [show-birthday] prints. *)
Definition show_birthday_output (st : state) (args : list pystr) : pystr :=
  match args with
  | [nm] =>
      match dict_get (lower nm) (data st) with
      | Some rid =>
          match heap st !! rid with
          | Some r =>
              match birthday r with
              | Some b => birthday_value b
              | None => lit "Birthday not found."
              end
          | None => []
          end
      | None => lit "Invalid input or contact not found."
      end
  | _ => lit "Enter valid input."
  end.

(** * Properties *)

Arguments lit _ : simpl never.

(** ** Phone validation *)

Lemma forallb_Forall_iff {A} (f : A -> bool) (l : list A) :
  forallb f l = true <-> (forall x, x ∈ l -> f x = true).
Proof.
  rewrite forallb_forall. split; intros H x Hx; apply H; by apply list_elem_of_In.
Qed.

Lemma isdigit_nonempty (s : pystr) :
  s <> [] -> isdigit s = forallb Unicode.is_digit s.
Proof. by destruct s. Qed.

(** Below 128 the digits of the database are the ten ASCII digits. *)
Lemma is_digit_ascii (c : N) :
  is_ascii c = true -> Unicode.is_digit c = ascii_digit c.
Proof.
  intros Hc. unfold is_ascii in Hc. apply N.ltb_lt in Hc.
  assert (Hall : forallb (fun n => Bool.eqb (Unicode.is_digit (N.of_nat n))
                                    (ascii_digit (N.of_nat n))) (seq 0 128) = true)
    by (vm_compute; reflexivity).
  rewrite forallb_forall in Hall.
  specialize (Hall (N.to_nat c)).
  rewrite N2Nat.id in Hall. apply eqb_prop, Hall, in_seq. lia.
Qed.

Lemma ascii_digit_is_ascii (c : N) : ascii_digit c = true -> is_ascii c = true.
Proof. unfold ascii_digit, is_ascii. intros H. apply andb_prop in H as [_ H]. apply N.leb_le in H. apply N.ltb_lt. lia. Qed.

Lemma forallb_ascii_digits (s : pystr) :
  forallb Unicode.is_digit s && forallb is_ascii s
  = forallb ascii_digit s.
Proof.
  induction s as [|c s IH]; [done|]. simpl. rewrite <- IH.
  destruct (is_ascii c) eqn:Hc.
  - rewrite (is_digit_ascii c Hc). destruct (ascii_digit c); simpl; [done|done].
  - destruct (ascii_digit c) eqn:Hd.
    + apply ascii_digit_is_ascii in Hd. congruence.
    + simpl. by rewrite !andb_false_r.
Qed.

(** C5, as the spec states it, fails: a string of ten non-ASCII digits has
    length 10 and is accepted, although none of its characters is an ASCII
    digit. *)
Lemma phone_accepts_non_ascii_digits :
  Phone.validate_format arabic_indic_phone = true
  /\ length arabic_indic_phone = 10%nat
  /\ existsb ascii_digit arabic_indic_phone = false.
Proof. repeat split; reflexivity. Qed.

(** C5 (amended): phone validation returns true iff the string has length
    exactly 10 and every character is a digit in the sense of
    [str.isdigit]; among strings of ASCII characters these are exactly the
    strings of ten characters ['0'..'9']. *)
Theorem phone_validate_format_spec (raw : pystr) :
  (Phone.validate_format raw = true
   <-> length raw = 10%nat /\ (forall c, c ∈ raw -> Unicode.is_digit c = true))
  /\ Phone.validate_format raw && forallb is_ascii raw
     = (length raw =? 10)%nat && forallb ascii_digit raw.
Proof.
  unfold Phone.validate_format. split.
  - rewrite andb_true_iff, Nat.eqb_eq. split.
    + intros [Hlen Hd]. split; [done|].
      apply forallb_Forall_iff. rewrite <- isdigit_nonempty; [done|].
      by destruct raw.
    + intros [Hlen Hd]. split; [done|].
      rewrite isdigit_nonempty by (by destruct raw).
      by apply forallb_Forall_iff.
  - destruct (length raw =? 10)%nat eqn:Hlen; [|done]. simpl.
    rewrite isdigit_nonempty; [apply forallb_ascii_digits|].
    apply Nat.eqb_eq in Hlen. by destruct raw.
Qed.

(** ** Birthday validation *)

Lemma match_seq_sound (a : list charclass) (s cap rest : pystr) :
  match_seq a s = Some (cap, rest) ->
  s = cap ++ rest /\ Forall2 (fun (cl : charclass) c => cl c = true) a cap.
Proof.
  revert s cap rest. induction a as [|cl a IH]; intros s cap rest; simpl.
  - intros [= <- <-]. split; [done|constructor].
  - destruct s as [|c s]; [done|].
    destruct (cl c) eqn:Hcl; [|done].
    destruct (match_seq a s) as [[cap' rest']|] eqn:Hm; [|done].
    intros [= <- <-]. apply IH in Hm as [-> Hm].
    split; [done|by constructor].
Qed.

Lemma match_seq_complete (a : list charclass) (cap rest : pystr) :
  Forall2 (fun (cl : charclass) c => cl c = true) a cap ->
  match_seq a (cap ++ rest) = Some (cap, rest).
Proof.
  induction 1 as [|cl c a cap Hcl _ IH]; simpl; [done|].
  by rewrite Hcl, IH.
Qed.

Lemma match_pieces_spec (ps : list piece) (s : pystr) (groups : list pystr)
    (rest : pystr) :
  In (groups, rest) (match_pieces ps s) <-> decomposes ps s groups rest.
Proof.
  revert s groups. induction ps as [|[alts|c] ps IH]; intros s groups; simpl.
  - split.
    + intros [[= <- <-]|[]]. done.
    + intros [-> ->]. by left.
  - rewrite in_flat_map. split.
    + intros (a & Ha & Hin).
      destruct (match_seq a s) as [[cap mid]|] eqn:Hm; [|done].
      apply in_map_iff in Hin as ([g r] & [= <- <-] & Hin). simpl.
      apply match_seq_sound in Hm as [-> Hm].
      exists cap, g, mid. repeat split; [by exists a| by apply IH].
    + intros (cap & g & mid & (a & Ha & Hm) & -> & -> & Hd).
      exists a. split; [done|].
      rewrite (match_seq_complete a cap mid Hm).
      apply in_map_iff. exists (g, rest). split; [done|by apply IH].
  - destruct s as [|c' s].
    + split; [done|]. by intros (s' & Hs & _).
    + destruct (N.eqb_spec c c') as [->|Hne].
      * rewrite IH. split; [by exists s|]. by intros (s' & [= <-] & H).
      * split; [done|]. intros (s' & [= -> _] & _). done.
Qed.

Arguments one _ _ : simpl never.
Arguments range _ _ _ : simpl never.
Arguments backslash_d _ : simpl never.

Ltac invert_Forall2 :=
  repeat match goal with
         | H : Forall2 _ (_ :: _) _ |- _ => inversion H; clear H; subst
         | H : Forall2 _ [] _ |- _ => inversion H; clear H; subst
         end.

Ltac split_bools :=
  repeat match goal with
         | H : _ || _ = true |- _ => apply orb_prop in H as [H|H]
         | H : _ && _ = true |- _ => apply andb_prop in H as [? ?]
         end.

Ltac use_bools :=
  repeat match goal with
         | H : ?b = true |- context [?b] => rewrite H
         end;
  simpl; rewrite ?orb_true_r; try reflexivity.

Lemma alt_match_day (t : pystr) : alt_match re_d t <-> day_text t = true.
Proof.
  split.
  - intros (a & Ha & Hm). unfold re_d in Ha. simpl in Ha.
    repeat destruct Ha as [<-|Ha]; try done; invert_Forall2; simpl;
      unfold backslash_d in *; use_bools.
  - destruct t as [|a [|b [|? ?]]]; simpl; try done; intros H; split_bools.
    + exists [range 49 57]. split; [simpl; auto 10|]. by repeat constructor.
    + exists [one 51; range 48 49]. split; [simpl; auto 10|]. by repeat constructor.
    + exists [range 49 50; backslash_d]. split; [simpl; auto 10|]. by repeat constructor.
    + exists [one 48; range 49 57]. split; [simpl; auto 10|]. by repeat constructor.
    + exists [one 32; range 49 57]. split; [simpl; auto 10|]. by repeat constructor.
Qed.

Lemma alt_match_month (t : pystr) : alt_match re_m t <-> month_text t = true.
Proof.
  split.
  - intros (a & Ha & Hm). unfold re_m in Ha. simpl in Ha.
    repeat destruct Ha as [<-|Ha]; try done; invert_Forall2; simpl; use_bools.
  - destruct t as [|a [|b [|? ?]]]; simpl; try done; intros H; split_bools.
    + exists [range 49 57]. split; [simpl; auto 10|]. by repeat constructor.
    + exists [one 49; range 48 50]. split; [simpl; auto 10|]. by repeat constructor.
    + exists [one 48; range 49 57]. split; [simpl; auto 10|]. by repeat constructor.
Qed.

Lemma alt_match_year (t : pystr) : alt_match re_Y t <-> year_text t = true.
Proof.
  unfold year_text. split.
  - intros (a & Ha & Hm). unfold re_Y in Ha. simpl in Ha.
    destruct Ha as [<-|[]]. invert_Forall2. simpl.
    unfold backslash_d in *. use_bools.
  - destruct t as [|a [|b [|c [|d [|? ?]]]]]; simpl; try done.
    intros H. split_bools.
    exists [backslash_d; backslash_d; backslash_d; backslash_d].
    split; [simpl; auto|]. by repeat constructor.
Qed.

(** A character that no class of a group accepts does not occur in the
    texts the group matches. *)
Lemma alt_match_excludes (alts : list (list charclass)) (t : pystr) (c0 : N) :
  forallb (forallb (fun cl : charclass => negb (cl c0))) alts = true ->
  alt_match alts t -> ~ In c0 t.
Proof.
  intros Hex (a & Ha & Hm).
  rewrite forallb_forall in Hex. specialize (Hex a Ha).
  clear Ha. induction Hm as [|cl c a t Hcl _ IH]; [by intros []|].
  simpl in Hex. apply andb_prop in Hex as [Hc Hex].
  intros [->|Hin]; [|by apply IH].
  rewrite Hcl in Hc. done.
Qed.

Lemma alt_match_length (alts : list (list charclass)) (t : pystr) (n : nat) :
  forallb (fun a : list charclass => length a =? n)%nat alts = true ->
  alt_match alts t -> length t = n.
Proof.
  intros Hlen (a & Ha & Hm). rewrite forallb_forall in Hlen.
  specialize (Hlen a Ha). apply Nat.eqb_eq in Hlen.
  apply Forall2_length in Hm. lia.
Qed.

(** Texts free of the separator are split at it in one way only. *)
Lemma split_at_unique (c : N) (u1 u2 v1 v2 : pystr) :
  ~ In c u1 -> ~ In c u2 -> u1 ++ c :: v1 = u2 ++ c :: v2 -> u1 = u2 /\ v1 = v2.
Proof.
  revert u2. induction u1 as [|x u1 IH]; intros [|y u2] H1 H2 Heq; simpl in *.
  - by injection Heq as ->.
  - injection Heq as <- _. tauto.
  - injection Heq as -> _. tauto.
  - injection Heq as -> Heq. destruct (IH u2) as [-> ->]; tauto.
Qed.

Lemma decomposes_dmY (s : pystr) (groups : list pystr) (rest : pystr) :
  decomposes format_dmY s groups rest
  <-> exists dt mt yt,
        groups = [dt; mt; yt] /\ s = dt ++ 46%N :: mt ++ 46%N :: yt ++ rest
        /\ day_text dt = true /\ month_text mt = true /\ year_text yt = true.
Proof.
  unfold format_dmY. simpl. split.
  - intros (dt & g1 & s1 & Hd & -> & -> & s2 & -> & mt & g2 & s3 & Hm & -> & ->
            & s4 & -> & yt & g3 & s5 & Hy & -> & -> & -> & ->).
    exists dt, mt, yt.
    apply alt_match_day in Hd. apply alt_match_month in Hm. apply alt_match_year in Hy.
    done.
  - intros (dt & mt & yt & -> & -> & Hd & Hm & Hy).
    apply alt_match_day in Hd. apply alt_match_month in Hm. apply alt_match_year in Hy.
    exists dt, [mt; yt], (46%N :: mt ++ 46%N :: yt ++ rest). repeat split; [done|].
    eexists. split; [done|].
    exists mt, [yt], (46%N :: yt ++ rest). repeat split; [done|].
    eexists. split; [done|].
    exists yt, [], rest. repeat split; done.
Qed.

(** The expression matches a text in at most one way. *)
Lemma decomposition_unique (dt mt yt dt' mt' yt' rest rest' : pystr) :
  day_text dt = true -> month_text mt = true -> year_text yt = true ->
  day_text dt' = true -> month_text mt' = true -> year_text yt' = true ->
  dt ++ 46%N :: mt ++ 46%N :: yt ++ rest = dt' ++ 46%N :: mt' ++ 46%N :: yt' ++ rest' ->
  dt = dt' /\ mt = mt' /\ yt = yt' /\ rest = rest'.
Proof.
  intros Hd Hm Hy Hd' Hm' Hy' Heq.
  apply alt_match_day in Hd, Hd'. apply alt_match_month in Hm, Hm'.
  apply alt_match_year in Hy, Hy'.
  apply split_at_unique in Heq as [-> Heq];
    [|by apply (alt_match_excludes re_d)..].
  apply split_at_unique in Heq as [-> Heq];
    [|by apply (alt_match_excludes re_m)..].
  apply app_inj_1 in Heq as [-> ->]; [done|].
  rewrite (alt_match_length re_Y yt 4), (alt_match_length re_Y yt' 4); done.
Qed.

(** The first match of the expression is its only match. *)
Lemma re_match_dmY (s : pystr) (groups : list pystr) (rest : pystr) :
  re_match format_dmY s = Some (groups, rest)
  <-> decomposes format_dmY s groups rest.
Proof.
  unfold re_match. split.
  - intros H. apply match_pieces_spec.
    destruct (match_pieces format_dmY s) as [|x l]; [done|].
    injection H as ->. by left.
  - intros H. pose proof H as Hin. apply match_pieces_spec in Hin.
    destruct (match_pieces format_dmY s) as [|[g r] l] eqn:Hl; [done|].
    assert (decomposes format_dmY s g r) as H'
      by (apply match_pieces_spec; rewrite Hl; by left).
    apply decomposes_dmY in H as (dt & mt & yt & -> & Hs & Hd & Hm & Hy).
    apply decomposes_dmY in H' as (dt' & mt' & yt' & -> & Hs' & Hd' & Hm' & Hy').
    rewrite Hs in Hs'.
    apply decomposition_unique in Hs' as (-> & -> & -> & ->); done.
Qed.

(** [strptime] returns the date [d.m.y] exactly on the texts that read as
    that date and denote a day of the calendar. *)
Lemma strptime_dmY_spec (s : pystr) (y m d : Z) :
  strptime_dmY s = inr (mkDate y m d)
  <-> birthday_text s y m d /\ valid_date y m d = true.
Proof.
  unfold strptime_dmY, birthday_text. split.
  - destruct (re_match format_dmY s) as [[groups rest]|] eqn:Hre; [|done].
    destruct rest; [|done].
    apply re_match_dmY, decomposes_dmY in Hre
      as (dt & mt & yt & -> & -> & Hd & Hm & Hy).
    rewrite app_nil_r.
    destruct (py_int yt) as [yy|] eqn:Hyy; [|done].
    destruct (py_int mt) as [mm|] eqn:Hmm; [|done].
    destruct (py_int dt) as [dd|] eqn:Hdd; [|done].
    destruct (valid_date yy mm dd) eqn:Hv; [|done].
    intros [= <- <- <-]. split; [|done]. by exists dt, mt, yt.
  - intros [(dt & mt & yt & -> & Hd & Hm & Hy & Hdd & Hmm & Hyy) Hv].
    assert (re_match format_dmY (dt ++ 46%N :: mt ++ 46%N :: yt)
            = Some ([dt; mt; yt], [])) as ->.
    { apply re_match_dmY, decomposes_dmY. exists dt, mt, yt.
      by rewrite app_nil_r. }
    by rewrite Hyy, Hmm, Hdd, Hv.
Qed.

(** ** The numbers the fields of a birthday denote *)

Lemma in_range_enum (c : N) (r : N * N) :
  Unicode.in_range c r = true -> In c (enum_range r).
Proof.
  unfold Unicode.in_range, enum_range. intros H.
  apply andb_prop in H as [H1 H2]. apply N.leb_le in H1, H2.
  apply in_map_iff. exists (N.to_nat c). split; [apply N2Nat.id|].
  apply in_seq. lia.
Qed.

(** No whitespace character is a decimal digit. *)
Lemma space_not_decimal (c : N) :
  Unicode.is_space c = true -> Unicode.decimal_value c = None.
Proof.
  unfold Unicode.is_space. rewrite existsb_exists. intros (r & Hr & Hc).
  apply in_range_enum in Hc.
  assert (forallb (fun r => forallb (fun c => match Unicode.decimal_value c with
                                             | None => true | Some _ => false end)
                              (enum_range r)) Unicode.spaces = true) as Hall
    by (vm_compute; reflexivity).
  rewrite forallb_forall in Hall. specialize (Hall r Hr).
  rewrite forallb_forall in Hall. specialize (Hall c Hc).
  by destruct (Unicode.decimal_value c).
Qed.

Lemma decimal_not_space (c : N) :
  Unicode.is_decimal c = true -> Unicode.is_space c = false.
Proof.
  unfold Unicode.is_decimal. intros H.
  destruct (Unicode.is_space c) eqn:Hs; [|done].
  by rewrite (space_not_decimal c Hs) in H.
Qed.

Lemma decimal_value_bound (c v : N) :
  Unicode.decimal_value c = Some v -> (v <= 9)%N.
Proof.
  unfold Unicode.decimal_value.
  destruct (List.find _ Unicode.decimal_zeros) as [z|] eqn:Hz; [|done].
  apply find_some in Hz as [_ Hz]. unfold Unicode.in_range in Hz. simpl in Hz.
  apply andb_prop in Hz as [H1 H2]. apply N.leb_le in H1, H2.
  intros [= <-]. lia.
Qed.

(** The ASCII digits have their usual values. *)
Lemma ascii_digit_value (c : N) :
  ascii_digit c = true -> Unicode.decimal_value c = Some (c - 48)%N.
Proof.
  intros H.
  assert (In c (enum_range (48, 57)%N)) as Hin by (by apply in_range_enum).
  vm_compute in Hin.
  repeat destruct Hin as [<-|Hin]; try reflexivity. done.
Qed.

Lemma range_ascii_digit lo hi c :
  (48 <= lo)%N -> (hi <= 57)%N -> range lo hi c = true -> ascii_digit c = true.
Proof.
  unfold range, ascii_digit. intros Hlo Hhi H.
  apply andb_prop in H as [H1 H2]. apply N.leb_le in H1, H2.
  apply andb_true_intro. split; apply N.leb_le; lia.
Qed.

Lemma range_bounds lo hi c : range lo hi c = true -> (lo <= c <= hi)%N.
Proof.
  unfold range. intros H. apply andb_prop in H as [H1 H2].
  apply N.leb_le in H1, H2. done.
Qed.

Lemma one_eq a c : one a c = true -> c = a.
Proof. unfold one. intros H. by apply N.eqb_eq in H. Qed.

Lemma py_int_digit (c : N) (v : N) :
  Unicode.decimal_value c = Some v -> py_int [c] = Some (Z.of_N v).
Proof.
  intros Hv. unfold py_int, strip. simpl.
  assert (Unicode.is_space c = false) as Hs
    by (apply decimal_not_space; unfold Unicode.is_decimal; by rewrite Hv).
  rewrite Hs. simpl. rewrite Hs. simpl. unfold int_digits. simpl. by rewrite Hv.
Qed.

Lemma py_int_two_digits (a b : N) (va vb : N) :
  Unicode.decimal_value a = Some va -> Unicode.decimal_value b = Some vb ->
  py_int [a; b] = Some (10 * Z.of_N va + Z.of_N vb).
Proof.
  intros Ha Hb. unfold py_int, strip. simpl.
  assert (Unicode.is_space a = false) as Hsa
    by (apply decimal_not_space; unfold Unicode.is_decimal; by rewrite Ha).
  assert (Unicode.is_space b = false) as Hsb
    by (apply decimal_not_space; unfold Unicode.is_decimal; by rewrite Hb).
  repeat (first [rewrite Hsa|rewrite Hsb]; simpl).
  unfold int_digits. simpl. by rewrite Ha, Hb.
Qed.

Lemma py_int_space_digit (b : N) (vb : N) :
  Unicode.decimal_value b = Some vb -> py_int [32%N; b] = Some (Z.of_N vb).
Proof.
  intros Hb. unfold py_int, strip. simpl.
  assert (Unicode.is_space b = false) as Hsb
    by (apply decimal_not_space; unfold Unicode.is_decimal; by rewrite Hb).
  change (Unicode.is_space 32) with true. cbn iota.
  repeat (rewrite Hsb; simpl). unfold int_digits. simpl. by rewrite Hb.
Qed.

(** A day text denotes a number from 1 to 31. *)
Lemma day_text_value (t : pystr) :
  day_text t = true -> exists d, py_int t = Some d /\ 1 <= d <= 31.
Proof.
  destruct t as [|a [|b [|? ?]]]; simpl; try done; intros H; split_bools.
  - pose proof (range_bounds _ _ _ H).
    apply (range_ascii_digit 49 57) in H; [|lia..].
    apply ascii_digit_value in H. eexists. split; [by apply py_int_digit|lia].
  - apply one_eq in H as ->. pose proof (range_bounds _ _ _ H0).
    apply (range_ascii_digit 48 49) in H0; [|lia..].
    apply ascii_digit_value in H0. eexists.
    split; [by apply (py_int_two_digits 51 b 3)|lia].
  - pose proof (range_bounds _ _ _ H).
    apply (range_ascii_digit 49 50) in H; [|lia..].
    apply ascii_digit_value in H.
    unfold Unicode.is_decimal in H0.
    destruct (Unicode.decimal_value b) as [vb|] eqn:Hb; [|done].
    pose proof (decimal_value_bound _ _ Hb).
    eexists. split; [by apply py_int_two_digits|lia].
  - apply one_eq in H as ->. pose proof (range_bounds _ _ _ H0).
    apply (range_ascii_digit 49 57) in H0; [|lia..].
    apply ascii_digit_value in H0. eexists.
    split; [by apply (py_int_two_digits 48 b 0)|lia].
  - apply one_eq in H as ->. pose proof (range_bounds _ _ _ H0).
    apply (range_ascii_digit 49 57) in H0; [|lia..].
    apply ascii_digit_value in H0. eexists.
    split; [by apply py_int_space_digit|lia].
Qed.

(** A month text denotes a number from 1 to 12. *)
Lemma month_text_value (t : pystr) :
  month_text t = true -> exists m, py_int t = Some m /\ 1 <= m <= 12.
Proof.
  destruct t as [|a [|b [|? ?]]]; simpl; try done; intros H; split_bools.
  - pose proof (range_bounds _ _ _ H).
    apply (range_ascii_digit 49 57) in H; [|lia..].
    apply ascii_digit_value in H. eexists. split; [by apply py_int_digit|lia].
  - apply one_eq in H as ->. pose proof (range_bounds _ _ _ H0).
    apply (range_ascii_digit 48 50) in H0; [|lia..].
    apply ascii_digit_value in H0. eexists.
    split; [by apply (py_int_two_digits 49 b 1)|lia].
  - apply one_eq in H as ->. pose proof (range_bounds _ _ _ H0).
    apply (range_ascii_digit 49 57) in H0; [|lia..].
    apply ascii_digit_value in H0. eexists.
    split; [by apply (py_int_two_digits 48 b 0)|lia].
Qed.

(** A year text denotes a number from 0 to 9999. *)
Lemma year_text_value (t : pystr) :
  year_text t = true -> exists y, py_int t = Some y /\ 0 <= y <= 9999.
Proof.
  unfold year_text.
  destruct t as [|a [|b [|c [|d [|? ?]]]]]; simpl; try done.
  intros H. split_bools. unfold Unicode.is_decimal in *.
  destruct (Unicode.decimal_value a) as [va|] eqn:Ha; [|done].
  destruct (Unicode.decimal_value b) as [vb|] eqn:Hb; [|done].
  destruct (Unicode.decimal_value c) as [vc|] eqn:Hc; [|done].
  destruct (Unicode.decimal_value d) as [vd|] eqn:Hd; [|done].
  pose proof (decimal_value_bound _ _ Ha). pose proof (decimal_value_bound _ _ Hb).
  pose proof (decimal_value_bound _ _ Hc). pose proof (decimal_value_bound _ _ Hd).
  assert (forall x v, Unicode.decimal_value x = Some v -> Unicode.is_space x = false) as Hsp.
  { intros x v Hx. apply decimal_not_space. unfold Unicode.is_decimal. by rewrite Hx. }
  exists (10 * (10 * (10 * Z.of_N va + Z.of_N vb) + Z.of_N vc) + Z.of_N vd).
  split; [|lia].
  unfold py_int, strip. simpl.
  repeat (first [rewrite (Hsp a va Ha)|rewrite (Hsp d vd Hd)]; simpl).
  unfold int_digits. simpl. by rewrite Ha, Hb, Hc, Hd.
Qed.

(** ** Birthdays written in ASCII *)

(** Below 128 the decimal digits of the database are the ten ASCII
    digits. *)
Lemma is_decimal_ascii (c : N) :
  is_ascii c = true -> Unicode.is_decimal c = ascii_digit c.
Proof.
  intros Hc. unfold is_ascii in Hc. apply N.ltb_lt in Hc.
  assert (Hall : forallb (fun n => Bool.eqb (Unicode.is_decimal (N.of_nat n))
                                    (ascii_digit (N.of_nat n))) (seq 0 128) = true)
    by (vm_compute; reflexivity).
  rewrite forallb_forall in Hall.
  specialize (Hall (N.to_nat c)).
  rewrite N2Nat.id in Hall. apply eqb_prop, Hall, in_seq. lia.
Qed.

Lemma ascii_digit_decimal (c : N) :
  ascii_digit c = true -> Unicode.is_decimal c = true.
Proof.
  intros H. unfold Unicode.is_decimal. by rewrite (ascii_digit_value c H).
Qed.

Lemma ascii_digit_Z (c : N) :
  ascii_digit c = true -> Z.of_N (c - 48) = Z.of_N c - 48.
Proof.
  unfold ascii_digit. intros H. apply andb_prop in H as [H _].
  apply N.leb_le in H. lia.
Qed.

Lemma py_int_four_digits (a b c d va vb vc vd : N) :
  Unicode.decimal_value a = Some va -> Unicode.decimal_value b = Some vb ->
  Unicode.decimal_value c = Some vc -> Unicode.decimal_value d = Some vd ->
  py_int [a; b; c; d]
  = Some (10 * (10 * (10 * Z.of_N va + Z.of_N vb) + Z.of_N vc) + Z.of_N vd).
Proof.
  intros Ha Hb Hc Hd.
  assert (forall x v, Unicode.decimal_value x = Some v -> Unicode.is_space x = false) as Hsp.
  { intros x v Hx. apply decimal_not_space. unfold Unicode.is_decimal. by rewrite Hx. }
  unfold py_int, strip. simpl.
  repeat (first [rewrite (Hsp a va Ha)|rewrite (Hsp d vd Hd)]; simpl).
  unfold int_digits. simpl. by rewrite Ha, Hb, Hc, Hd.
Qed.

(** On ASCII digits [int] gives the number they write. *)
Lemma py_int_number1 (a : N) :
  ascii_digit a = true -> py_int [a] = Some (number [a]).
Proof.
  intros Ha. rewrite (py_int_digit a (a - 48)) by (by apply ascii_digit_value).
  unfold number. cbn [fold_left]. rewrite ascii_digit_Z by done. f_equal; lia.
Qed.

Lemma py_int_number2 (a b : N) :
  ascii_digit a = true -> ascii_digit b = true ->
  py_int [a; b] = Some (number [a; b]).
Proof.
  intros Ha Hb.
  rewrite (py_int_two_digits a b (a - 48) (b - 48)) by (by apply ascii_digit_value).
  unfold number. cbn [fold_left]. rewrite !ascii_digit_Z by done. f_equal; lia.
Qed.

Lemma py_int_number_space (c : N) :
  ascii_digit c = true -> py_int [32%N; c] = Some (number [c]).
Proof.
  intros Hc. rewrite (py_int_space_digit c (c - 48)) by (by apply ascii_digit_value).
  unfold number. cbn [fold_left]. rewrite ascii_digit_Z by done. f_equal; lia.
Qed.

Lemma py_int_number4 (a b c d : N) :
  ascii_digit a = true -> ascii_digit b = true ->
  ascii_digit c = true -> ascii_digit d = true ->
  py_int [a; b; c; d] = Some (number [a; b; c; d]).
Proof.
  intros Ha Hb Hc Hd.
  rewrite (py_int_four_digits a b c d (a - 48) (b - 48) (c - 48) (d - 48))
    by (by apply ascii_digit_value).
  unfold number. cbn [fold_left]. rewrite !ascii_digit_Z by done. f_equal; lia.
Qed.

Lemma valid_date_bounds (y m d : Z) :
  valid_date y m d = true -> 1 <= y <= 9999 /\ 1 <= m <= 12 /\ 1 <= d <= 31.
Proof.
  unfold valid_date, MINYEAR, MAXYEAR. intros H. split_bools.
  repeat match goal with
         | H : (_ <=? _) = true |- _ => apply Z.leb_le in H
         end.
  assert (days_in_month y m <= 31)
    by (unfold days_in_month; repeat case_match; lia).
  lia.
Qed.

(** A day text in ASCII is one or two digits, or a space and a digit. *)
Lemma day_text_ascii (t : pystr) (d : Z) :
  day_text t = true -> forallb is_ascii t = true -> py_int t = Some d ->
  (one_or_two_digits t = true /\ d = number t)
  \/ (exists c, t = [32%N; c] /\ ascii_digit c = true /\ d = number [c]).
Proof.
  destruct t as [|a [|b [|? ?]]]; simpl; try done; intros H Hasc Hd.
  - apply (range_ascii_digit 49 57) in H; [|lia..].
    rewrite py_int_number1 in Hd by done. left. split; [done|congruence].
  - apply andb_prop in Hasc as [_ Hb]. apply andb_prop in Hb as [Hb _].
    apply orb_prop in H as [H|H]; [apply orb_prop in H as [H|H];
                                   [apply orb_prop in H as [H|H]|]|];
      apply andb_prop in H as [H1 H2].
    + apply one_eq in H1 as ->. apply (range_ascii_digit 48 49) in H2; [|lia..].
      rewrite py_int_number2 in Hd by done. left. split; [by rewrite H2|congruence].
    + apply (range_ascii_digit 49 50) in H1; [|lia..].
      rewrite (is_decimal_ascii b Hb) in H2.
      rewrite py_int_number2 in Hd by done.
      left. split; [by rewrite H1, H2|congruence].
    + apply one_eq in H1 as ->. apply (range_ascii_digit 49 57) in H2; [|lia..].
      rewrite py_int_number2 in Hd by done. left. split; [by rewrite H2|congruence].
    + apply one_eq in H1 as ->. apply (range_ascii_digit 49 57) in H2; [|lia..].
      rewrite py_int_number_space in Hd by done.
      right. exists b. split; [done|]. split; [done|congruence].
Qed.

Lemma month_text_ascii (t : pystr) (m : Z) :
  month_text t = true -> py_int t = Some m ->
  one_or_two_digits t = true /\ m = number t.
Proof.
  destruct t as [|a [|b [|? ?]]]; simpl; try done; intros H Hm.
  - apply (range_ascii_digit 49 57) in H; [|lia..].
    rewrite py_int_number1 in Hm by done. split; [done|congruence].
  - apply orb_prop in H as [H|H]; apply andb_prop in H as [H1 H2].
    + apply one_eq in H1 as ->. apply (range_ascii_digit 48 50) in H2; [|lia..].
      rewrite py_int_number2 in Hm by done. split; [by rewrite H2|congruence].
    + apply one_eq in H1 as ->. apply (range_ascii_digit 49 57) in H2; [|lia..].
      rewrite py_int_number2 in Hm by done. split; [by rewrite H2|congruence].
Qed.

Lemma year_text_ascii (t : pystr) (y : Z) :
  year_text t = true -> forallb is_ascii t = true -> py_int t = Some y ->
  four_ascii_digits t = true /\ y = number t.
Proof.
  unfold year_text, four_ascii_digits.
  destruct t as [|a [|b [|c [|d [|? ?]]]]]; simpl; try done.
  intros H Hasc Hy. split_bools.
  repeat match goal with
         | H : Unicode.is_decimal ?x = true, H' : is_ascii ?x = true |- _ =>
             rewrite (is_decimal_ascii x H') in H
         end.
  rewrite py_int_number4 in Hy by done. split; [|congruence].
  repeat match goal with
         | H : ascii_digit _ = true |- _ => rewrite H; clear H
         end.
  done.
Qed.

(** One or two ASCII digits that write a number from 1 to 31 are a day
    text, and those that write a number from 1 to 12 a month text. *)
Lemma two_digit_texts (a b : N) :
  ascii_digit a = true -> ascii_digit b = true ->
  day_text [a; b] = (1 <=? number [a; b]) && (number [a; b] <=? 31)
  /\ month_text [a; b] = (1 <=? number [a; b]) && (number [a; b] <=? 12).
Proof.
  intros Ha Hb.
  assert (forallb (fun a => forallb (fun b =>
            Bool.eqb (day_text [a; b])
                     ((1 <=? number [a; b]) && (number [a; b] <=? 31))
            && Bool.eqb (month_text [a; b])
                        ((1 <=? number [a; b]) && (number [a; b] <=? 12)))
            (enum_range (48, 57)%N)) (enum_range (48, 57)%N) = true) as Hall
    by (vm_compute; reflexivity).
  rewrite forallb_forall in Hall.
  specialize (Hall a (in_range_enum a (48, 57)%N Ha)).
  rewrite forallb_forall in Hall.
  specialize (Hall b (in_range_enum b (48, 57)%N Hb)).
  apply andb_prop in Hall as [H1 H2]. by apply eqb_prop in H1, H2.
Qed.

Lemma one_digit_texts (a : N) :
  ascii_digit a = true ->
  range 49 57 a = (1 <=? number [a]).
Proof.
  intros Ha.
  assert (forallb (fun a => Bool.eqb (range 49 57 a) (1 <=? number [a]))
            (enum_range (48, 57)%N) = true) as Hall
    by (vm_compute; reflexivity).
  rewrite forallb_forall in Hall.
  specialize (Hall a (in_range_enum a (48, 57)%N Ha)). by apply eqb_prop in Hall.
Qed.

Lemma day_text_intro (t : pystr) :
  one_or_two_digits t = true -> 1 <= number t <= 31 ->
  day_text t = true /\ py_int t = Some (number t).
Proof.
  destruct t as [|a [|b [|? ?]]]; simpl; try done; intros H Hn.
  - split; [|by apply py_int_number1].
    rewrite one_digit_texts by done. apply Z.leb_le. lia.
  - apply andb_prop in H as [Ha Hb]. split; [|by apply py_int_number2].
    destruct (two_digit_texts a b Ha Hb) as [Hday _].
    change (day_text [a; b] = true). rewrite Hday.
    apply andb_true_intro. split; apply Z.leb_le; lia.
Qed.

Lemma day_text_space_intro (c : N) :
  ascii_digit c = true -> 1 <= number [c] ->
  day_text [32%N; c] = true /\ py_int [32%N; c] = Some (number [c]).
Proof.
  intros Hc Hn. split; [|by apply py_int_number_space].
  assert (range 49 57 c = true) as Hr
    by (rewrite one_digit_texts by done; apply Z.leb_le; lia).
  unfold day_text. rewrite Hr. reflexivity.
Qed.

Lemma month_text_intro (t : pystr) :
  one_or_two_digits t = true -> 1 <= number t <= 12 ->
  month_text t = true /\ py_int t = Some (number t).
Proof.
  destruct t as [|a [|b [|? ?]]]; simpl; try done; intros H Hn.
  - split; [|by apply py_int_number1].
    rewrite one_digit_texts by done. apply Z.leb_le. lia.
  - apply andb_prop in H as [Ha Hb]. split; [|by apply py_int_number2].
    destruct (two_digit_texts a b Ha Hb) as [_ Hmonth].
    change (month_text [a; b] = true). rewrite Hmonth.
    apply andb_true_intro. split; apply Z.leb_le; lia.
Qed.

Lemma year_text_intro (t : pystr) :
  four_ascii_digits t = true ->
  year_text t = true /\ py_int t = Some (number t).
Proof.
  unfold year_text, four_ascii_digits.
  destruct t as [|a [|b [|c [|d [|? ?]]]]]; simpl; try done.
  intros H. split_bools. split; [|by apply py_int_number4].
  by rewrite !ascii_digit_decimal.
Qed.

Lemma one_or_two_digits_ascii (t : pystr) :
  one_or_two_digits t = true -> forallb is_ascii t = true.
Proof.
  destruct t as [|a [|b [|? ?]]]; simpl; try done; intros H; split_bools;
    by rewrite !ascii_digit_is_ascii.
Qed.

(** The texts of the ASCII reading are in ASCII. *)
Lemma ascii_birthday_text_ascii (s : pystr) (y m d : Z) :
  ascii_birthday_text s y m d -> forallb is_ascii s = true.
Proof.
  intros (dt & mt & yt & -> & Hd & Hm & _ & Hy & _).
  rewrite forallb_app. cbn [forallb]. rewrite forallb_app. cbn [forallb].
  assert (forallb is_ascii dt = true) as ->.
  { destruct Hd as [[Hd _]|(c & -> & Hc & _)].
    - by apply one_or_two_digits_ascii.
    - simpl. by rewrite ascii_digit_is_ascii. }
  rewrite (one_or_two_digits_ascii mt Hm).
  unfold four_ascii_digits in Hy. apply andb_prop in Hy as [_ Hy].
  assert (forallb is_ascii yt = true) as ->; [|done].
  apply forallb_forall. intros c Hc. apply ascii_digit_is_ascii.
  rewrite forallb_forall in Hy. by apply Hy.
Qed.

(** The two readings agree on the dates of the calendar written in
    ASCII. *)
Lemma birthday_text_ascii (s : pystr) (y m d : Z) :
  valid_date y m d = true ->
  (birthday_text s y m d /\ forallb is_ascii s = true
   <-> ascii_birthday_text s y m d).
Proof.
  intros Hv. split.
  - intros [(dt & mt & yt & -> & Hd & Hm & Hy & Hdd & Hmm & Hyy) Hasc].
    rewrite forallb_app in Hasc. cbn [forallb] in Hasc.
    rewrite forallb_app in Hasc. cbn [forallb] in Hasc.
    apply andb_prop in Hasc as [Had Hasc]. apply andb_prop in Hasc as [_ Hasc].
    apply andb_prop in Hasc as [_ Hasc]. apply andb_prop in Hasc as [_ Hay].
    exists dt, mt, yt. split; [done|].
    split; [by apply day_text_ascii|].
    destruct (month_text_ascii mt m Hm Hmm) as [? ?].
    destruct (year_text_ascii yt y Hy Hay Hyy) as [? ?]. done.
  - intros Ht. split; [|by eapply ascii_birthday_text_ascii].
    destruct Ht as (dt & mt & yt & -> & Hd & Hm & -> & Hy & ->).
    apply valid_date_bounds in Hv as (_ & Hmb & Hdb).
    destruct (month_text_intro mt Hm Hmb) as [? ?].
    destruct (year_text_intro yt Hy) as [? ?].
    exists dt, mt, yt. split; [done|].
    destruct Hd as [[Hd ->]|(c & -> & Hc & ->)].
    + destruct (day_text_intro dt Hd Hdb) as [? ?]. done.
    + destruct (day_text_space_intro c Hc) as [? ?]; [lia|]. done.
Qed.

(** C6, as the spec states it, fails: leading zeros are not required. *)
Lemma birthday_accepts_missing_leading_zeros :
  Birthday.validate_format (lit "5.8.1990") = true
  /\ strptime_dmY (lit "5.8.1990") = inr (mkDate 1990 8 5).
Proof. split; reflexivity. Qed.

(** C6 (amended): birthday validation returns true iff the string is a day
    text, a dot, a month text, a dot and a year text whose numbers denote a
    real calendar date of the years 1 to 9999.  A day text is a digit 1-9,
    alone or after a 0 or a space, or a 1 or a 2 followed by a digit, or
    30 or 31; a month text is a digit 1-9, alone or after a 0, or 10, 11
    or 12; a year text is four digits.  The digits are the ASCII digits
    0-9, except that the four digits of the year and the second digit of
    the days 10 to 29 may be decimal digits of any script, read by their
    value.  The strings of ASCII characters it accepts are exactly those
    made of a day of one or two digits 0-9, or a space and one digit, a
    dot, a month of one or two digits 0-9, a dot and a year of four digits
    0-9, whose numbers denote a real calendar date of the years 1 to 9999.
    31.04.2000 is rejected, 29.02.2000 is accepted, 5.8.1990, without
    leading zeros, is accepted; 15.08.1990 with the year in Arabic-Indic
    digits is accepted, and written in Arabic-Indic digits throughout it
    is rejected. *)
Theorem birthday_validate_format_spec (raw : pystr) :
  (Birthday.validate_format raw = true
   <-> exists y m d, birthday_text raw y m d /\ valid_date y m d = true)
  /\ (Birthday.validate_format raw = true /\ forallb is_ascii raw = true
      <-> exists y m d, ascii_birthday_text raw y m d /\ valid_date y m d = true)
  /\ Birthday.validate_format (lit "31.04.2000") = false
  /\ Birthday.validate_format (lit "29.02.2000") = true
  /\ Birthday.validate_format (lit "5.8.1990") = true
  /\ Birthday.validate_format arabic_indic_year = true
  /\ Birthday.validate_format arabic_indic_date = false.
Proof.
  assert (Birthday.validate_format raw = true
          <-> exists y m d, birthday_text raw y m d /\ valid_date y m d = true)
    as Hspec.
  { unfold Birthday.validate_format. split.
    - destruct (strptime_dmY raw) as [e|[y m d]] eqn:Hp; [done|].
      intros _. exists y, m, d. by apply strptime_dmY_spec.
    - intros (y & m & d & H). apply strptime_dmY_spec in H. by rewrite H. }
  split; [done|]. split; [|repeat split; reflexivity].
  rewrite Hspec. split.
  - intros [(y & m & d & Ht & Hv) Hasc]. exists y, m, d. split; [|done].
    by apply birthday_text_ascii.
  - intros (y & m & d & Ht & Hv).
    apply birthday_text_ascii in Ht as [Ht Hasc]; [|done].
    split; [|done]. by exists y, m, d.
Qed.

(** ** The book is left alone by failing calls *)

Ltac unfold_m :=
  unfold bind, ret, raise, load, store, get_state, Phone_new, Record_new,
    set_heap, set_data in *.

Ltac crush_m := unfold_m; intros; repeat case_match; simplify_eq; simpl in *; try done.

Lemma add_phone_raise self phone st e st' :
  add_phone self phone st = (Raise e, st') -> st' = st.
Proof. unfold add_phone. crush_m. Qed.

Lemma Record_add_birthday_raise self b st e st' :
  Record_add_birthday self b st = (Raise e, st') -> st' = st.
Proof. unfold Record_add_birthday. crush_m. Qed.

Lemma remove_phone_raise self p st e st' :
  remove_phone self p st = (Raise e, st') -> st' = st.
Proof. unfold remove_phone. crush_m. Qed.

Lemma edit_phone_raise self p q st e st' :
  edit_phone self p q st = (Raise e, st') -> st' = st.
Proof. unfold edit_phone. crush_m. Qed.

Lemma find_phone_raise self p st e st' :
  find_phone self p st = (Raise e, st') -> st' = st.
Proof. unfold find_phone. crush_m. Qed.

Lemma add_record_raise rec st e st' :
  add_record rec st = (Raise e, st') -> st' = st.
Proof. unfold add_record. crush_m. Qed.

Lemma delete_raise nm st e st' :
  delete nm st = (Raise e, st') -> st' = st.
Proof. unfold delete. crush_m. Qed.

Lemma find_outcome nm st o st' :
  find nm st = (o, st') -> st' = st.
Proof. unfold find. crush_m. Qed.

Lemma birthdays_loop_state nw rids acc st o st' :
  birthdays_loop nw rids acc st = (o, st') -> st' = st.
Proof.
  revert acc. induction rids as [|rid rids IH]; intros acc; simpl.
  - crush_m.
  - unfold_m. intros H. repeat case_match; simplify_eq; eauto.
Qed.

Lemma get_birthdays_per_week_state today st o st' :
  get_birthdays_per_week today st = (o, st') -> st' = st.
Proof.
  unfold get_birthdays_per_week. destruct (add_days 7 today); [|crush_m].
  unfold bind, get_state. apply birthdays_loop_state.
Qed.

Lemma book_kept_refl st : book_kept st st.
Proof. split; [done|]. exists []. by rewrite app_nil_r. Qed.

Lemma insert_snoc {A} (l : list A) (x y : A) :
  <[length l := y]> (l ++ [x]) = l ++ [y].
Proof.
  replace (length l) with (length l + 0)%nat by lia.
  by rewrite insert_app_r.
Qed.

Lemma handler_fun_eq h : handler_fun h = input_error (handler_body h).
Proof. by destruct h. Qed.

Lemma add_contact_raise args st e st' :
  Body.add_contact args st = (Raise e, st') -> book_kept st st'.
Proof.
  unfold Body.add_contact.
  destruct args as [|nm [|phone [|? ?]]]; try (crush_m; apply book_kept_refl).
  unfold bind at 1. unfold Record_new at 1. unfold bind at 1. unfold Phone_new at 1.
  unfold bind at 1.
  destruct (add_phone _ _ _) as [[[]|e1] st1] eqn:H1.
  - unfold add_phone in H1.
    destruct (Phone.validate_format _); [|crush_m].
    unfold_m. simpl in H1. rewrite list_lookup_middle in H1 by done.
    injection H1 as <-. rewrite insert_snoc.
    unfold add_record. unfold_m. simpl.
    rewrite list_lookup_middle by done. done.
  - intros [= <- <-]. apply add_phone_raise in H1 as ->.
    split; [done|]. simpl. by eexists.
Qed.

Lemma change_contact_raise args st e st' :
  Body.change_contact args st = (Raise e, st') -> book_kept st st'.
Proof.
  unfold Body.change_contact.
  destruct args as [|nm [|phone [|? ?]]]; try (crush_m; apply book_kept_refl).
  unfold bind at 1.
  destruct (find nm st) as [[rid|e1] st1] eqn:H1;
    apply find_outcome in H1 as ->; [|intros [= <- <-]; apply book_kept_refl].
  unfold bind at 1. unfold Phone_new at 1. unfold bind at 1. unfold Phone_new at 1.
  unfold bind at 1.
  destruct (edit_phone _ _ _ _) as [[[]|e1] st1] eqn:H1; [done|].
  intros [= <- <-]. apply edit_phone_raise in H1 as ->.
  split; [done|]. exists []. by rewrite app_nil_r.
Qed.

Lemma show_phone_raise args st e st' :
  Body.show_phone args st = (Raise e, st') -> book_kept st st'.
Proof.
  unfold Body.show_phone, find. crush_m; apply book_kept_refl.
Qed.

Lemma add_birthday_raise args st e st' :
  Body.add_birthday args st = (Raise e, st') -> book_kept st st'.
Proof.
  unfold Body.add_birthday.
  destruct args as [|nm [|bd [|? ?]]]; try (crush_m; apply book_kept_refl).
  unfold bind at 1.
  destruct (find nm st) as [[rid|e1] st1] eqn:H1;
    apply find_outcome in H1 as ->; [|intros [= <- <-]; apply book_kept_refl].
  unfold bind at 1.
  destruct (Record_add_birthday _ _ _) as [[[]|e1] st1] eqn:H1; [done|].
  intros [= <- <-]. apply Record_add_birthday_raise in H1 as ->.
  apply book_kept_refl.
Qed.

Lemma show_birthday_state args st o st' :
  Body.show_birthday args st = (o, st') -> st' = st.
Proof. unfold Body.show_birthday, find. crush_m. Qed.

Lemma handler_body_raise h args st e st' :
  handler_body h args st = (Raise e, st') -> book_kept st st'.
Proof.
  destruct h; simpl.
  - apply add_contact_raise.
  - apply change_contact_raise.
  - apply show_phone_raise.
  - apply add_birthday_raise.
  - intros H. apply show_birthday_state in H as ->. apply book_kept_refl.
Qed.

(** What a handler returns when its body returns is never an error text. *)
Lemma handler_body_ret h args st v st' :
  handler_body h args st = (Ret v, st') -> failed (Command h args) (Ret v) = false.
Proof.
  destruct h; simpl.
  - unfold Body.add_contact. crush_m.
  - unfold Body.change_contact. crush_m.
  - unfold Body.show_phone. crush_m.
  - unfold Body.add_birthday. crush_m.
  - unfold Body.show_birthday. crush_m.
Qed.

(** C9: a call that fails (a method that raises, a handler that returns an
    error message) leaves the book as it was: the same entries, and every
    record with the name, the phones and the birthday it had. *)
Theorem failed_call_keeps_book (c : call) (st : state) :
  failed c (fst (run c st)) = true ->
  data (snd (run c st)) = data st
  /\ exists garbage, heap (snd (run c st)) = heap st ++ garbage.
Proof.
  intros Hf. change (book_kept st (snd (run c st))).
  destruct c; simpl in *.
  - unfold_m. simpl in Hf. done.
  - unfold bind in *. destruct (add_phone self phone st) as [[[]|e] st1] eqn:H; [done|].
    apply add_phone_raise in H as ->. apply book_kept_refl.
  - unfold bind in *. destruct (Record_add_birthday self b st) as [[[]|e] st1] eqn:H; [done|].
    apply Record_add_birthday_raise in H as ->. apply book_kept_refl.
  - unfold bind in *. destruct (remove_phone self phone st) as [[[]|e] st1] eqn:H; [done|].
    apply remove_phone_raise in H as ->. apply book_kept_refl.
  - unfold bind in *.
    destruct (edit_phone self old_phone new_phone st) as [[[]|e] st1] eqn:H; [done|].
    apply edit_phone_raise in H as ->. apply book_kept_refl.
  - unfold bind in *. destruct (find_phone self phone st) as [[s|e] st1] eqn:H; [done|].
    apply find_phone_raise in H as ->. apply book_kept_refl.
  - unfold bind in *. destruct (add_record rec st) as [[[]|e] st1] eqn:H; [done|].
    apply add_record_raise in H as ->. apply book_kept_refl.
  - unfold bind in *. destruct (delete nm st) as [[[]|e] st1] eqn:H; [done|].
    apply delete_raise in H as ->. apply book_kept_refl.
  - unfold bind in *. destruct (find nm st) as [[rid|e] st1] eqn:H; [done|].
    apply find_outcome in H as ->. apply book_kept_refl.
  - unfold bind in *.
    destruct (get_birthdays_per_week today st) as [[l|e] st1] eqn:H;
      apply get_birthdays_per_week_state in H as ->; apply book_kept_refl.
  - rewrite handler_fun_eq in *. unfold input_error in *.
    destruct (handler_body h args st) as [[v|e] st1] eqn:H; simpl in *.
    + apply handler_body_ret in H. simpl in H. congruence.
    + by apply handler_body_raise in H.
  - unfold birthdays, bind in *.
    destruct (get_birthdays_per_week today st) as [[l|e] st1] eqn:H;
      apply get_birthdays_per_week_state in H as ->; simpl.
    + destruct l; apply book_kept_refl.
    + apply book_kept_refl.
Qed.

(** ** The key invariant *)

Lemma preserves_ret P {A} (a : A) : preserves P (ret a).
Proof. by intros st. Qed.

Lemma preserves_raise P {A} (e : exn) : preserves P (@raise A e).
Proof. by intros st. Qed.

Lemma preserves_bind P {A B} (m : M A) (k : A -> M B) :
  preserves P m -> (forall a, preserves P (k a)) -> preserves P (bind m k).
Proof.
  intros Hm Hk st HP. unfold bind. specialize (Hm st HP).
  destruct (m st) as [[a|e] st1]; simpl in *; [by apply Hk|done].
Qed.

Lemma preserves_input_error P (f : list pystr -> M value) args :
  preserves P (f args) -> preserves P (input_error f args).
Proof.
  intros Hf st HP. specialize (Hf st HP). unfold input_error.
  by destruct (f args st) as [[v|e] st1].
Qed.

Lemma dict_set_In k v k0 v0 d :
  In (k, v) (dict_set k0 v0 d) -> (k = k0 /\ v = v0) \/ In (k, v) d.
Proof.
  induction d as [|[k1 v1] d IH]; simpl.
  - intros [[= <- <-]|[]]. by left.
  - case_bool_decide as Hk; simpl.
    + intros [[= <- <-]|Hin]; [by left|by right; right].
    + intros [Hin|Hin]; [by right; left|].
      destruct (IH Hin) as [?|?]; [by left|by right; right].
Qed.

Lemma dict_del_In k v k0 d : In (k, v) (dict_del k0 d) -> In (k, v) d.
Proof.
  induction d as [|[k1 v1] d IH]; simpl; [done|].
  case_bool_decide as Hk; simpl; [by right|].
  intros [Hin|Hin]; [by left|right; by apply IH].
Qed.

Lemma keys_normalized_store st self r r' :
  keys_normalized st -> heap st !! self = Some r -> name r' = name r ->
  keys_normalized (mkState (<[self := r']> (heap st)) (data st) (next_phone st)).
Proof.
  intros Hk Hself Hname k rid Hin. simpl in *.
  destruct (Hk k rid Hin) as (r0 & Hr0 & Hlow).
  destruct (decide (self = rid)) as [->|Hne].
  - exists r'. rewrite list_lookup_insert_eq by (by eapply lookup_lt_Some).
    split; [done|]. congruence.
  - exists r0. by rewrite list_lookup_insert_ne.
Qed.

Lemma keys_normalized_alloc st r :
  keys_normalized st ->
  keys_normalized (mkState (heap st ++ [r]) (data st) (next_phone st)).
Proof.
  intros Hk k rid Hin. simpl in *.
  destruct (Hk k rid Hin) as (r0 & Hr0 & Hlow).
  exists r0. split; [by apply lookup_app_l_Some|done].
Qed.

Lemma keys_normalized_counter st n :
  keys_normalized st -> keys_normalized (mkState (heap st) (data st) n).
Proof. done. Qed.

Lemma preserves_keys_Record_new nm : preserves keys_normalized (Record_new nm).
Proof. intros st H. by apply keys_normalized_alloc. Qed.

Lemma preserves_keys_Phone_new v : preserves keys_normalized (Phone_new v).
Proof. intros st H. by apply keys_normalized_counter. Qed.

Lemma preserves_keys_add_phone self phone :
  preserves keys_normalized (add_phone self phone).
Proof.
  intros st H. unfold add_phone. unfold_m.
  repeat case_match; simplify_eq; simpl; try done.
  by eapply keys_normalized_store.
Qed.

Lemma preserves_keys_Record_add_birthday self b :
  preserves keys_normalized (Record_add_birthday self b).
Proof.
  intros st H. unfold Record_add_birthday. unfold_m.
  repeat case_match; simplify_eq; simpl; try done.
  by eapply keys_normalized_store.
Qed.

Lemma preserves_keys_remove_phone self p :
  preserves keys_normalized (remove_phone self p).
Proof.
  intros st H. unfold remove_phone. unfold_m.
  repeat case_match; simplify_eq; simpl; try done.
  by eapply keys_normalized_store.
Qed.

Lemma preserves_keys_edit_phone self p q :
  preserves keys_normalized (edit_phone self p q).
Proof.
  intros st H. unfold edit_phone. unfold_m.
  repeat case_match; simplify_eq; simpl; try done.
  by eapply keys_normalized_store.
Qed.

Lemma preserves_keys_find_phone self p :
  preserves keys_normalized (find_phone self p).
Proof.
  intros st H. unfold find_phone. unfold_m.
  repeat case_match; simplify_eq; simpl; done.
Qed.

Lemma preserves_keys_add_record rec : preserves keys_normalized (add_record rec).
Proof.
  intros st H. unfold add_record. unfold_m.
  repeat case_match; simplify_eq; simpl; try done.
  intros k rid Hin. simpl in *.
  apply dict_set_In in Hin as [[-> ->]|Hin]; [by eexists|by apply H].
Qed.

Lemma preserves_keys_delete nm : preserves keys_normalized (delete nm).
Proof.
  intros st H. unfold delete. unfold_m.
  repeat case_match; simplify_eq; simpl; try done.
  intros k rid Hin. simpl in *. apply dict_del_In in Hin. by apply H.
Qed.

Lemma preserves_find P nm : preserves P (find nm).
Proof.
  intros st H. destruct (find nm st) as [o st1] eqn:Hf.
  by apply find_outcome in Hf as ->.
Qed.

Lemma preserves_load P self : preserves P (load self).
Proof. intros st H. unfold load. by case_match. Qed.

Lemma preserves_get_birthdays_per_week P today :
  preserves P (get_birthdays_per_week today).
Proof.
  intros st H. destruct (get_birthdays_per_week today st) as [o st1] eqn:Hf.
  by apply get_birthdays_per_week_state in Hf as ->.
Qed.

Create HintDb keys.
#[local] Hint Resolve preserves_ret preserves_raise preserves_find preserves_load
  preserves_get_birthdays_per_week preserves_keys_Record_new
  preserves_keys_Phone_new preserves_keys_add_phone
  preserves_keys_Record_add_birthday preserves_keys_remove_phone
  preserves_keys_edit_phone preserves_keys_find_phone
  preserves_keys_add_record preserves_keys_delete : keys.

Ltac preserves_steps close :=
  repeat first
    [ solve [close]
    | apply preserves_input_error
    | apply preserves_bind; [|intros ?]
    | match goal with |- preserves _ (match ?x with _ => _ end) => destruct x end ].

Lemma preserves_keys_run (c : call) : preserves keys_normalized (run c).
Proof.
  destruct c as [| | | | | | | | | |h args|]; simpl;
    try (unfold birthdays; preserves_steps ltac:(auto with keys); fail).
  destruct h; simpl;
      unfold add_contact, change_contact, show_phone, add_birthday, show_birthday,
        Body.add_contact, Body.change_contact, Body.show_phone, Body.add_birthday,
        Body.show_birthday;
      preserves_steps ltac:(auto with keys).
Qed.

Lemma keys_normalized_initial : keys_normalized initial.
Proof. by intros k rid []. Qed.

(** C7: in every book reached from the empty one by [add_record], [delete]
    and [find] (and by any other call of the interface), each entry is
    stored under the lowercased name of its record. *)
Theorem reachable_keys_normalized (calls : list call) :
  keys_normalized (run_all calls initial).
Proof.
  unfold run_all. generalize keys_normalized_initial. generalize initial.
  induction calls as [|c calls IH]; intros st Hst; simpl; [done|].
  apply IH. by apply preserves_keys_run.
Qed.

(** ** Adding and finding *)

Lemma dict_get_set_eq k v d : dict_get k (dict_set k v d) = Some v.
Proof.
  induction d as [|[k1 v1] d IH]; simpl.
  - by rewrite bool_decide_eq_true_2.
  - case_bool_decide as Hk; simpl.
    + by rewrite bool_decide_eq_true_2.
    + by rewrite bool_decide_eq_false_2.
Qed.

Lemma dict_set_keys k v d old :
  dict_get k d = Some old -> map fst (dict_set k v d) = map fst d.
Proof.
  induction d as [|[k1 v1] d IH]; simpl; [done|].
  case_bool_decide as Hk; simpl; [done|].
  intros H. by rewrite IH.
Qed.

(** C8: after [add_record(r)], [find] with any case variant of the name of
    [r] returns [r] itself. *)
Theorem add_record_then_find (st : state) (rid : nat) (r : record)
    (variant : pystr) :
  heap st !! rid = Some r ->
  lower variant = lower (name r) ->
  let st' := snd (add_record (VRecord rid) st) in
  fst (add_record (VRecord rid) st) = Ret tt
  /\ find variant st' = (Ret rid, st')
  /\ heap st' !! rid = Some r.
Proof.
  intros Hr Hv. unfold add_record, find. unfold_m. rewrite Hr. simpl.
  rewrite Hv, dict_get_set_eq. done.
Qed.

(** C10: [add] for a name that already has an entry, under any case
    variant, builds a new record holding only the new phone and no
    birthday and stores it in place of the old entry; what the old record
    held is not carried over. *)
Theorem add_contact_overwrites (st : state) (nm phone : pystr) (old : nat) :
  dict_get (lower nm) (data st) = Some old ->
  Phone.validate_format phone = true ->
  let fresh := length (heap st) in
  let created := mkRecord nm [mkPhone (next_phone st) phone] None in
  let st' := mkState (heap st ++ [created])
                     (dict_set (lower nm) fresh (data st))
                     (S (next_phone st)) in
  add_contact [nm; phone] st = (Ret (VStr (lit "Contact added.")), st')
  /\ heap st' !! fresh = Some created
  /\ (forall variant, lower variant = lower nm -> find variant st' = (Ret fresh, st'))
  /\ map fst (data st') = map fst (data st).
Proof.
  intros Hold Hvalid. simpl. repeat split.
  - unfold add_contact, input_error, Body.add_contact, add_phone, add_record.
    unfold_m. cbn [phone_value]. rewrite Hvalid. cbn [heap data next_phone].
    rewrite list_lookup_middle by done. cbn [heap data next_phone name phones birthday].
    rewrite insert_snoc. rewrite list_lookup_middle by done. done.
  - by rewrite list_lookup_middle.
  - intros variant Hv. unfold find. simpl. by rewrite Hv, dict_get_set_eq.
  - by eapply dict_set_keys.
Qed.

(** ** The order of the entries *)

(** A new key goes to the end; an existing key keeps its place
    ([dict_set_keys]); deleting keeps the order of the others. *)
Lemma dict_set_new k v d : dict_get k d = None -> dict_set k v d = d ++ [(k, v)].
Proof.
  induction d as [|[k1 v1] d IH]; simpl; [done|].
  case_bool_decide as Hk; [done|]. intros H. by rewrite IH.
Qed.

Lemma dict_del_sublist k d : sublist (dict_del k d) d.
Proof.
  induction d as [|[k1 v1] d IH]; simpl; [done|].
  case_bool_decide as Hk; [by apply sublist_cons|by apply sublist_skip].
Qed.

(** ** Upcoming birthdays *)

Lemma well_formed_spec (st : state) :
  well_formed st = true
  <-> (forall r, In r (heap st) -> record_ok (next_phone st) r = true)
      /\ (forall kv, In kv (data st) -> (snd kv < length (heap st))%nat).
Proof.
  unfold well_formed. rewrite andb_true_iff, !forallb_forall.
  split; intros [H1 H2]; (split; [done|]); intros kv Hkv.
  - by apply Nat.ltb_lt, H2.
  - by apply Nat.ltb_lt, H2.
Qed.

Lemma well_formed_book_ok (st : state) : well_formed st = true -> book_ok st = true.
Proof.
  intros Hwf. apply well_formed_spec in Hwf as [Hheap Hdata].
  apply forallb_forall. intros kv Hkv.
  destruct (lookup_lt_is_Some_2 _ _ (Hdata kv Hkv)) as [r Hr]. rewrite Hr.
  assert (record_ok (next_phone st) r = true) as Hok.
  { apply Hheap, list_elem_of_In. by eapply list_elem_of_lookup_2. }
  unfold record_ok in Hok. by apply andb_prop in Hok as [_ Hok].
Qed.

Lemma birthdays_loop_spec (nw : date) (st : state) (d : list (pystr * nat))
    (acc : list pystr) :
  forallb (fun kv : pystr * nat =>
             match heap st !! snd kv with
             | Some r => birthday_ok r
             | None => false
             end) d = true ->
  birthdays_loop nw (map snd d) acc st
  = (Ret (acc ++ map record_str
                   (List.filter (upcoming nw)
                      (omap (fun kv : pystr * nat => heap st !! snd kv) d))), st).
Proof.
  revert acc. induction d as [|[k rid] d IH]; intros acc Hd; simpl.
  - by rewrite app_nil_r.
  - simpl in Hd. apply andb_prop in Hd as [Hrid Hd].
    unfold bind at 1. unfold load at 1.
    destruct (heap st !! rid) as [r|] eqn:Hr; [|done]. simpl.
    unfold upcoming at 1. unfold birthday_ok in Hrid.
    destruct (birthday r) as [b|] eqn:Hb.
    + unfold Birthday.validate_format in Hrid.
      destruct (strptime_dmY (birthday_value b)) as [e|dt]; [done|].
      destruct (date_le dt nw).
      * rewrite IH by done. simpl. by rewrite <- app_assoc.
      * by apply IH.
    + by apply IH.
Qed.

(** The comparison of dates puts the year first. *)
Lemma date_le_on_or_before (a b : date) :
  date_le a b = true <-> on_or_before a b.
Proof.
  unfold date_le, on_or_before.
  destruct (Z.ltb_spec (year a) (year b)), (Z.eqb_spec (year a) (year b)),
    (Z.ltb_spec (month a) (month b)), (Z.eqb_spec (month a) (month b)),
    (Z.leb_spec (day a) (day b));
    simpl; split; intros ?; try done; lia.
Qed.

(** The test of the loop selects the records that are due. *)
Lemma upcoming_due (next_week : date) (r : record) :
  upcoming next_week r = true <-> due next_week r.
Proof.
  unfold upcoming, due. split.
  - destruct (birthday r) as [b|]; [|done].
    destruct (strptime_dmY (birthday_value b)) as [e|[y m d]] eqn:Hp; [done|].
    intros Hle. apply strptime_dmY_spec in Hp as [Ht Hv].
    exists b, y, m, d. repeat split; try done. by apply date_le_on_or_before.
  - intros (b & y & m & d & -> & Ht & Hv & Hle).
    assert (strptime_dmY (birthday_value b) = inr (mkDate y m d)) as ->
      by (by apply strptime_dmY_spec).
    by apply date_le_on_or_before.
Qed.

Lemma join_separated (sep : pystr) (parts : list pystr) :
  join sep parts = separated sep parts.
Proof.
  destruct parts as [|p ps]; [done|]. revert p.
  induction ps as [|q ps IH]; intros p.
  - simpl. by rewrite app_nil_r.
  - change (join sep (p :: q :: ps)) with (p ++ sep ++ join sep (q :: ps)).
    rewrite IH. simpl. by rewrite <- app_assoc.
Qed.

(** [Record.__str__] writes the summary. *)
Lemma record_str_summary (r : record) : record_str r = summary r.
Proof. unfold record_str, summary. by rewrite join_separated. Qed.

(** The day count: a year has 365 days, or 366 when it is a leap year. *)
Lemma days_before_year_succ (y : Z) :
  days_before_year (y + 1)
  = days_before_year y + (if is_leap y then 366 else 365).
Proof.
  unfold days_before_year, is_leap. replace (y + 1 - 1) with y by lia.
  destruct (Z.eqb_spec (y mod 4) 0), (Z.eqb_spec (y mod 100) 0),
    (Z.eqb_spec (y mod 400) 0); simpl; Z.div_mod_to_equations; lia.
Qed.

Lemma month_cases (m : Z) :
  1 <= m <= 12 ->
  m = 1 \/ m = 2 \/ m = 3 \/ m = 4 \/ m = 5 \/ m = 6 \/ m = 7 \/ m = 8
  \/ m = 9 \/ m = 10 \/ m = 11 \/ m = 12.
Proof. lia. Qed.

Lemma days_in_month_min (y m : Z) : 28 <= days_in_month y m.
Proof. unfold days_in_month. repeat case_match; lia. Qed.

Lemma days_before_month_succ (y m : Z) :
  1 <= m <= 11 ->
  days_before_month y (m + 1) = days_before_month y m + days_in_month y m.
Proof.
  intros Hm. assert (1 <= m <= 12) as Hc by lia.
  apply month_cases in Hc.
  repeat destruct Hc as [->|Hc]; try subst m; try lia;
    unfold days_before_month, days_in_month; simpl; destruct (is_leap y); lia.
Qed.

Lemma days_before_december (y : Z) :
  days_before_month y 12 + 31 = if is_leap y then 366 else 365.
Proof.
  unfold days_before_month, days_in_month. simpl. destruct (is_leap y); lia.
Qed.

(** The day after a day of the calendar is a day of the calendar, and the
    next in the count. *)
Lemma next_day_ordinal (t t' : date) :
  is_date t -> next_day t = Some t' ->
  is_date t' /\ ordinal t' = ordinal t + 1.
Proof.
  destruct t as [y m d]. unfold is_date, valid_date, next_day, ordinal, MINYEAR, MAXYEAR.
  cbn [year month day]. intros Hv. split_bools.
  repeat match goal with
         | H : (_ <=? _) = true |- _ => apply Z.leb_le in H
         end.
  pose proof (days_in_month_min y (m + 1)).
  destruct (Z.ltb_spec d (days_in_month y m)) as [Hd|Hd].
  - intros [= <-]. cbn [year month day]. split; [|lia].
    repeat (apply andb_true_intro; split); apply Z.leb_le; lia.
  - destruct (Z.ltb_spec m 12) as [Hm|Hm].
    + intros [= <-]. cbn [year month day]. split.
      * repeat (apply andb_true_intro; split); apply Z.leb_le; lia.
      * rewrite days_before_month_succ by lia. lia.
    + destruct (Z.ltb_spec y 9999) as [Hy|Hy]; [|done].
      intros [= <-]. cbn [year month day]. split.
      * change (days_in_month (y + 1) 1) with 31.
        repeat (apply andb_true_intro; split); apply Z.leb_le; lia.
      * assert (m = 12) as -> by lia.
        assert (d = 31) as -> by (change (days_in_month y 12) with 31 in *; lia).
        rewrite days_before_year_succ.
        pose proof (days_before_december y) as Hdec.
        change (days_before_month (y + 1) 1) with 0. lia.
Qed.

Lemma add_days_ordinal (n : nat) (t t' : date) :
  is_date t -> add_days n t = Some t' ->
  is_date t' /\ ordinal t' = ordinal t + Z.of_nat n.
Proof.
  revert t. induction n as [|n IH]; intros t Ht; cbn [add_days].
  - intros [= <-]. split; [done|lia].
  - destruct (next_day t) as [t1|] eqn:H1; [|done]. intros Hn.
    apply next_day_ordinal in H1 as [Ht1 Ho1]; [|done].
    apply IH in Hn as [Ht' Ho']; [|done]. split; [done|lia].
Qed.

Lemma is_date_bounds (t : date) :
  is_date t ->
  1 <= year t <= 9999 /\ 1 <= month t <= 12
  /\ 1 <= day t <= days_in_month (year t) (month t).
Proof.
  unfold is_date, valid_date, MINYEAR, MAXYEAR. intros H. split_bools.
  repeat match goal with
         | H : (_ <=? _) = true |- _ => apply Z.leb_le in H
         end.
  lia.
Qed.

Lemma days_before_year_mono (y y' : Z) :
  y <= y' -> days_before_year y <= days_before_year y'.
Proof. unfold days_before_year. intros H. Z.div_mod_to_equations. lia. Qed.

Lemma days_before_month_mono (y m : Z) (k : nat) :
  1 <= m -> m + Z.of_nat k <= 12 ->
  days_before_month y m <= days_before_month y (m + Z.of_nat k).
Proof.
  intros Hm. induction k as [|k IH]; intros Hk.
  - replace (m + Z.of_nat 0) with m by lia. lia.
  - replace (m + Z.of_nat (S k)) with (m + Z.of_nat k + 1) by lia.
    rewrite days_before_month_succ by lia.
    pose proof (days_in_month_min y (m + Z.of_nat k)). lia.
Qed.

(** The days of a year are counted after those of the years before and
    before those of the years after. *)
Lemma ordinal_in_year (t : date) :
  is_date t ->
  days_before_year (year t) < ordinal t <= days_before_year (year t + 1).
Proof.
  intros Ht. apply is_date_bounds in Ht as (Hy & Hm & Hd).
  destruct t as [y m d]. unfold ordinal. cbn [year month day] in *.
  rewrite days_before_year_succ. pose proof (days_before_december y) as Hdec.
  destruct (decide (m = 12)) as [->|Hne].
  - change (days_in_month y 12) with 31 in Hd.
    pose proof (days_before_month_mono y 1 11).
    change (days_before_month y 1) with 0 in *.
    change (1 + Z.of_nat 11) with 12 in *. lia.
  - pose proof (days_before_month_mono y 1 (Z.to_nat (m - 1))) as H1.
    replace (1 + Z.of_nat (Z.to_nat (m - 1))) with m in H1 by lia.
    change (days_before_month y 1) with 0 in H1.
    pose proof (days_before_month_mono y (m + 1) (Z.to_nat (12 - (m + 1)))) as H2.
    replace (m + 1 + Z.of_nat (Z.to_nat (12 - (m + 1)))) with 12 in H2 by lia.
    rewrite days_before_month_succ in H2 by lia. lia.
Qed.

(** Two days of the calendar with the same count are the same day. *)
Lemma ordinal_injective (a b : date) :
  is_date a -> is_date b -> ordinal a = ordinal b -> a = b.
Proof.
  intros Ha Hb Heq.
  pose proof (ordinal_in_year a Ha) as Hya. pose proof (ordinal_in_year b Hb) as Hyb.
  assert (year a = year b) as Hy.
  { destruct (Z.lt_trichotomy (year a) (year b)) as [Hlt|[?|Hlt]]; [|done|].
    - pose proof (days_before_year_mono (year a + 1) (year b)). lia.
    - pose proof (days_before_year_mono (year b + 1) (year a)). lia. }
  apply is_date_bounds in Ha as (_ & Hma & Hda).
  apply is_date_bounds in Hb as (_ & Hmb & Hdb).
  destruct a as [ya ma da], b as [yb mb db]. unfold ordinal in Heq.
  cbn [year month day] in *. subst yb.
  assert (ma = mb) as Hm.
  { destruct (Z.lt_trichotomy ma mb) as [Hlt|[?|Hlt]]; [|done|].
    - pose proof (days_before_month_mono ya (ma + 1) (Z.to_nat (mb - (ma + 1)))) as H.
      replace (ma + 1 + Z.of_nat (Z.to_nat (mb - (ma + 1)))) with mb in H by lia.
      rewrite days_before_month_succ in H by lia. lia.
    - pose proof (days_before_month_mono ya (mb + 1) (Z.to_nat (ma - (mb + 1)))) as H.
      replace (mb + 1 + Z.of_nat (Z.to_nat (ma - (mb + 1)))) with ma in H by lia.
      rewrite days_before_month_succ in H by lia. lia. }
  subst mb. f_equal. lia.
Qed.

(** The last day of the calendar is the only one with no day after it. *)
Lemma next_day_last (t : date) :
  is_date t -> next_day t = None -> t = mkDate 9999 12 31.
Proof.
  intros Ht. apply is_date_bounds in Ht as (Hy & Hm & Hd).
  destruct t as [y m d]. unfold next_day, MAXYEAR. cbn [year month day] in *.
  destruct (Z.ltb_spec d (days_in_month y m)); [done|].
  destruct (Z.ltb_spec m 12); [done|].
  destruct (Z.ltb_spec y 9999); [done|]. intros _.
  assert (m = 12) as -> by lia. change (days_in_month y 12) with 31 in *.
  f_equal; lia.
Qed.

Lemma ordinal_last (t : date) :
  is_date t -> ordinal t <= ordinal (mkDate 9999 12 31).
Proof.
  intros Ht. pose proof (ordinal_in_year t Ht) as Hy.
  apply is_date_bounds in Ht as (Hb & _).
  pose proof (days_before_year_mono (year t + 1) 10000).
  change (ordinal (mkDate 9999 12 31)) with 3652059.
  change (days_before_year 10000) with 3652059 in *. lia.
Qed.

(** Days are added as long as the calendar has them. *)
Lemma add_days_exists (n : nat) (t : date) :
  is_date t ->
  ordinal t + Z.of_nat n <= ordinal (mkDate 9999 12 31) ->
  exists t', add_days n t = Some t'.
Proof.
  revert t. induction n as [|n IH]; intros t Ht Hn; cbn [add_days]; [by eexists|].
  destruct (next_day t) as [t1|] eqn:H1.
  - apply next_day_ordinal in H1 as [Ht1 Ho1]; [|done]. apply IH; [done|lia].
  - apply next_day_last in H1 as ->; [|done]. lia.
Qed.

(** The date [n] days after [t] in the count is the one [add_days] gives. *)
Lemma add_days_spec (n : nat) (t t' : date) :
  is_date t -> is_date t' -> ordinal t' = ordinal t + Z.of_nat n ->
  add_days n t = Some t'.
Proof.
  intros Ht Ht' Ho.
  destruct (add_days_exists n t Ht) as [t1 H1].
  { pose proof (ordinal_last t' Ht'). lia. }
  rewrite H1. f_equal.
  apply add_days_ordinal in H1 as [Ht1 Ho1]; [|done].
  apply ordinal_injective; [done|done|lia].
Qed.

(** C4: let [next_week] be the date seven days after [today] in the count
    of the days of the calendar.  The upcoming-birthdays query returns,
    in the order of the entries of the book, the summaries of exactly
    those records that have a birthday whose date is [next_week] or
    earlier, the years being compared first, then the months, then the
    days; a record with no birthday is left out. *)
Theorem get_birthdays_per_week_spec (st : state) (today next_week : date) :
  book_ok st = true ->
  is_date today -> is_date next_week ->
  ordinal next_week = ordinal today + 7 ->
  get_birthdays_per_week today st
  = (Ret (map summary (List.filter (upcoming next_week) (entries st))), st)
  /\ (forall r, upcoming next_week r = true <-> due next_week r).
Proof.
  intros Hok Ht Hnw Ho. split.
  - unfold get_birthdays_per_week.
    rewrite (add_days_spec 7 today next_week) by done.
    unfold bind, get_state. rewrite birthdays_loop_spec by done.
    simpl. f_equal. f_equal. apply map_ext. intros r. apply record_str_summary.
  - intros r. apply upcoming_due.
Qed.

(** In the last seven days of the year 9999 no date is seven days after
    today: the addition overflows and the query raises. *)
Lemma get_birthdays_per_week_overflow (st : state) (today : date) :
  is_date today ->
  ordinal (mkDate 9999 12 31) < ordinal today + 7 ->
  get_birthdays_per_week today st
  = (Raise (OverflowError (lit "date value out of range")), st).
Proof.
  intros Ht Ho. unfold get_birthdays_per_week.
  destruct (add_days 7 today) as [nw|] eqn:Hn; [|done].
  apply add_days_ordinal in Hn as [Hnw Hon]; [|done].
  pose proof (ordinal_last nw Hnw). lia.
Qed.

(** ** States of a session are well formed *)

Lemma wf_intro h d n :
  (forall r, In r h -> record_ok n r = true) ->
  (forall kv : pystr * nat, In kv d -> (snd kv < length h)%nat) ->
  wf (mkState h d n).
Proof. intros H1 H2. by apply well_formed_spec. Qed.

Lemma wf_elim st :
  wf st ->
  (forall r, In r (heap st) -> record_ok (next_phone st) r = true)
  /\ (forall kv, In kv (data st) -> (snd kv < length (heap st))%nat).
Proof. apply well_formed_spec. Qed.

Lemma record_ok_mono n n' r :
  (n <= n')%nat -> record_ok n r = true -> record_ok n' r = true.
Proof.
  unfold record_ok. intros Hle H. apply andb_prop in H as [Hp Hb].
  apply andb_true_intro. split; [|done].
  rewrite forallb_forall in *. intros p Hin. specialize (Hp p Hin).
  apply Nat.ltb_lt in Hp. apply Nat.ltb_lt. lia.
Qed.

Lemma In_insert {A} (l : list A) i x y :
  In y (<[i := x]> l) -> y = x \/ In y l.
Proof.
  revert i. induction l as [|a l IH]; intros [|i]; simpl; try tauto.
  - intros [<-|H]; tauto.
  - intros [<-|H]; [tauto|]. destruct (IH i H); tauto.
Qed.

Lemma phones_ok_insert n (l : list Phone) i p :
  (phone_id p < n)%nat ->
  forallb (fun q => phone_id q <? n)%nat l = true ->
  forallb (fun q => phone_id q <? n)%nat (<[i := p]> l) = true.
Proof.
  intros Hp Hl. rewrite forallb_forall in *. intros q Hq.
  apply In_insert in Hq as [->|Hq]; [by apply Nat.ltb_lt|by apply Hl].
Qed.

Lemma wf_add_contact args : preserves wf (add_contact args).
Proof.
  intros st Hwf. destruct (wf_elim st Hwf) as [Hheap Hdata].
  unfold add_contact, input_error, Body.add_contact.
  destruct args as [|nm [|phone [|? ?]]]; try done.
  unfold add_phone, add_record. unfold_m. cbn [phone_value].
  assert (forall ps b, (forall p, In p ps -> phone_id p = next_phone st) ->
            match b with Some b' => Birthday.validate_format (birthday_value b') = true
                    | None => True end ->
            forall r, In r (heap st ++ [mkRecord nm ps b]) ->
                      record_ok (S (next_phone st)) r = true) as Hnew.
  { intros ps b Hps Hb r Hr. apply in_app_iff in Hr as [Hr|[<-|[]]].
    - apply (record_ok_mono (next_phone st)); [lia|by apply Hheap].
    - unfold record_ok. cbn [phones birthday]. apply andb_true_intro. split.
      + apply forallb_forall. intros p Hp. apply Nat.ltb_lt. rewrite (Hps p Hp). lia.
      + by destruct b. }
  assert (forall kv : pystr * nat,
            In kv (data st) -> (snd kv < length (heap st ++ [mkRecord nm [] None]))%nat)
    as Hd by (intros kv Hkv; rewrite length_app; specialize (Hdata kv Hkv); lia).
  destruct (Phone.validate_format phone); cbn [heap data next_phone].
  - rewrite list_lookup_middle by done. cbn [heap data next_phone name phones birthday].
    rewrite insert_snoc. rewrite list_lookup_middle by done. cbn.
    apply wf_intro.
    + apply Hnew; [|done]. by intros p [<-|[]].
    + intros [k v] Hkv. apply dict_set_In in Hkv as [[-> ->]|Hkv].
      * cbn. rewrite length_app. cbn. lia.
      * specialize (Hdata _ Hkv). rewrite length_app. lia.
  - cbn. apply wf_intro; [|done]. apply Hnew; [|done]. by intros p [].
Qed.

Lemma wf_store st self r' n :
  wf st -> (next_phone st <= n)%nat -> record_ok n r' = true ->
  wf (mkState (<[self := r']> (heap st)) (data st) n).
Proof.
  intros Hwf Hn Hr'. destruct (wf_elim st Hwf) as [Hheap Hdata].
  apply wf_intro.
  - intros x Hx. apply In_insert in Hx as [->|Hx]; [done|].
    apply (record_ok_mono (next_phone st)); [done|by apply Hheap].
  - intros kv Hkv. rewrite length_insert. by apply Hdata.
Qed.

Lemma wf_counter st n :
  wf st -> (next_phone st <= n)%nat -> wf (mkState (heap st) (data st) n).
Proof.
  intros Hwf Hn. destruct (wf_elim st Hwf) as [Hheap Hdata].
  apply wf_intro; [|done].
  intros x Hx. apply (record_ok_mono (next_phone st)); [done|by apply Hheap].
Qed.

Lemma wf_lookup st rid r :
  wf st -> heap st !! rid = Some r -> record_ok (next_phone st) r = true.
Proof.
  intros Hwf Hr. destruct (wf_elim st Hwf) as [Hheap _].
  apply Hheap, list_elem_of_In. by eapply list_elem_of_lookup_2.
Qed.

Lemma wf_change_contact args : preserves wf (change_contact args).
Proof.
  intros st Hwf.
  unfold change_contact, input_error, Body.change_contact.
  destruct args as [|nm [|phone [|? ?]]]; try done.
  unfold find, edit_phone. unfold_m.
  destruct (dict_get (lower nm) (data st)) as [rid|]; [|done].
  cbn [heap data next_phone].
  destruct (heap st !! rid) as [r|] eqn:Hr; [|by apply wf_counter; [|cbn; lia]].
  destruct (phone_in _ (phones r)); [|by apply wf_counter; [|cbn; lia]].
  destruct (phone_index _ (phones r)) as [index|]; [|by apply wf_counter; [|cbn; lia]].
  cbn. apply (wf_store st rid); [done|cbn; lia|].
  pose proof (wf_lookup _ _ _ Hwf Hr) as Hok.
  apply (record_ok_mono _ (S (S (next_phone st)))) in Hok; [|lia].
  unfold record_ok in *. cbn [phones birthday].
  apply andb_prop in Hok as [Hp Hb]. apply andb_true_intro. split; [|done].
  apply phones_ok_insert; [cbn; lia|done].
Qed.

Lemma wf_show_phone args : preserves wf (show_phone args).
Proof.
  intros st Hwf. unfold show_phone, input_error, Body.show_phone, find.
  unfold_m. repeat case_match; simplify_eq; done.
Qed.

Lemma wf_add_birthday args : preserves wf (add_birthday args).
Proof.
  intros st Hwf.
  unfold add_birthday, input_error, Body.add_birthday.
  destruct args as [|nm [|bd [|? ?]]]; try done.
  unfold find, Record_add_birthday. unfold_m. cbn [birthday_value].
  destruct (dict_get (lower nm) (data st)) as [rid|]; [|done].
  destruct (Birthday.validate_format bd) eqn:Hbd; [|done].
  destruct (heap st !! rid) as [r|] eqn:Hr; [|done].
  cbn. apply (wf_store st rid); [done|cbn; lia|].
  pose proof (wf_lookup _ _ _ Hwf Hr) as Hok.
  unfold record_ok in *. cbn [phones birthday birthday_value].
  apply andb_prop in Hok as [Hp Hb]. by apply andb_true_intro.
Qed.

Lemma wf_show_birthday args : preserves wf (show_birthday args).
Proof.
  intros st Hwf. unfold show_birthday, input_error.
  destruct (Body.show_birthday args st) as [[v|e] st1] eqn:H;
    by apply show_birthday_state in H as ->.
Qed.

Lemma wf_birthdays today : preserves wf (birthdays today).
Proof.
  unfold birthdays. apply preserves_bind.
  - apply preserves_get_birthdays_per_week.
  - intros []; apply preserves_ret.
Qed.

Lemma wf_value_str v : preserves wf (value_str v).
Proof.
  destruct v; simpl; try apply preserves_ret.
  apply preserves_bind; [apply preserves_load|intros; apply preserves_ret].
Qed.

Lemma wf_print_call nm args today : preserves wf (print_call nm args today).
Proof.
  unfold print_call, load_global. intros st Hwf. unfold bind at 1.
  destruct (List.find _ module_functions) as [[n f]|] eqn:Hf; [|done].
  apply find_some in Hf as [Hin _]. cbn [snd ret].
  revert st Hwf. change (preserves wf
    (v <- match f with Handler h => h args | BookFunction g => g today end ;;
     value_str v)).
  apply preserves_bind; [|intros; apply wf_value_str].
  unfold module_functions in Hin. simpl in Hin.
  repeat destruct Hin as [[= <- <-]|Hin]; try done.
  - apply wf_add_contact.
  - apply wf_change_contact.
  - apply wf_show_phone.
  - apply wf_add_birthday.
  - apply wf_show_birthday.
  - apply wf_birthdays.
Qed.

Lemma wf_turn today user_input : preserves wf (turn today user_input).
Proof.
  unfold turn. apply preserves_bind.
  - unfold parse_input. destruct (split user_input); [apply preserves_raise|apply preserves_ret].
  - intros [command args]. cbn [fst snd].
    repeat match goal with
           | |- preserves _ (if ?b then _ else _) => destruct b
           | |- preserves _ (ret _) => apply preserves_ret
           | |- preserves _ (bind (print_call _ _ _) _) =>
               apply preserves_bind; [apply wf_print_call|intros ?]
           end.
Qed.

Lemma wf_main_step today user_input st :
  wf st -> wf (snd (main_step today user_input st)).
Proof.
  intros Hwf. unfold main_step.
  pose proof (wf_turn today user_input st Hwf) as H.
  by destruct (turn today user_input st) as [[[out continue]|e] st1].
Qed.

(** Every state a session reaches from the empty book is well formed. *)
Lemma session_well_formed today inputs st :
  wf st -> wf (snd (session today inputs st)).
Proof.
  revert st. induction inputs as [|line inputs IH]; intros st Hwf; simpl; [done|].
  pose proof (wf_main_step today line st Hwf) as H.
  destruct (main_step today line st) as [[out [|]] st1]; simpl in *; [by apply IH|done].
Qed.

(** ** Phones are compared by identity *)

Lemma phone_index_in (p : Phone) (l : list Phone) (i : nat) :
  phone_index p l = Some i -> phone_in p l = true.
Proof.
  revert i. induction l as [|q l IH]; intros i; simpl; [done|].
  unfold phone_eqb. rewrite (Nat.eqb_sym (phone_id p)).
  destruct (phone_id q =? phone_id p)%nat; [done|].
  destruct (phone_index p l); [|done]. intros _. by eapply IH.
Qed.

(** [phones.index(p)] is the first position holding the object [p]. *)
Lemma phone_index_first (p : Phone) (l : list Phone) (i : nat) :
  phone_index p l = Some i
  <-> (exists q, l !! i = Some q /\ phone_id q = phone_id p)
      /\ (forall j q, (j < i)%nat -> l !! j = Some q -> phone_id q <> phone_id p).
Proof.
  revert i. induction l as [|q l IH]; intros i; simpl.
  - split; [done|]. by intros [(q & Hq & _) _].
  - unfold phone_eqb. destruct (Nat.eqb_spec (phone_id q) (phone_id p)) as [Heq|Hne].
    + split.
      * intros [= <-]. split; [by exists q|]. intros j q' Hj. lia.
      * intros [_ Hfirst]. destruct i as [|i]; [done|].
        exfalso. apply (Hfirst 0%nat q); [lia|done|done].
    + destruct i as [|i].
      * split; [by destruct (phone_index p l)|].
        intros [(q' & [= ->] & Hq') _]. done.
      * specialize (IH i). destruct (phone_index p l) as [i'|].
        -- split.
           ++ intros [= ->]. destruct IH as [[Hex Hfirst] _]; [done|].
              split; [done|]. intros [|j] q' Hj; simpl.
              ** by intros [= <-].
              ** apply Hfirst. lia.
           ++ intros [Hex Hfirst]. f_equal. destruct IH as [_ IH].
              assert (Some i' = Some i) as [= ->]; [|done].
              apply IH. split; [done|].
              intros j q' Hj. apply (Hfirst (S j)). lia.
        -- split; [done|]. intros [Hex Hfirst]. destruct IH as [_ IH].
           discriminate IH. split; [done|].
           intros j q' Hj. apply (Hfirst (S j)). lia.
Qed.

(** X8: what [edit_phone] does: when the object [old_phone] itself is in
    the list, its first occurrence is replaced, at the same index. *)
Lemma edit_phone_replaces (st : state) (self : nat) (r : record)
    (old_phone new_phone : Phone) (i : nat) :
  heap st !! self = Some r ->
  phone_index old_phone (phones r) = Some i ->
  edit_phone self old_phone new_phone st
  = (Ret tt,
     mkState (<[self := mkRecord (name r) (<[i := new_phone]> (phones r)) (birthday r)]>
                (heap st))
             (data st) (next_phone st)).
Proof.
  intros Hr Hi. unfold edit_phone. unfold_m. rewrite Hr.
  by rewrite (phone_index_in _ _ _ Hi), Hi.
Qed.

(** It fails when no stored phone is that object, whatever digits the
    stored phones have. *)
Lemma edit_phone_other_object (st : state) (self : nat) (r : record)
    (old_phone new_phone : Phone) :
  heap st !! self = Some r ->
  (forall q, In q (phones r) -> phone_id q <> phone_id old_phone) ->
  edit_phone self old_phone new_phone st
  = (Raise (ValueError (lit "Phone number not found in the record.")), st).
Proof.
  intros Hr Hne. unfold edit_phone. unfold_m. rewrite Hr.
  assert (phone_in old_phone (phones r) = false) as ->; [|done].
  unfold phone_in. apply not_true_is_false. rewrite existsb_exists.
  intros (q & Hq & Heq). apply (Hne q Hq).
  unfold phone_eqb in Heq. apply Nat.eqb_eq in Heq. done.
Qed.

(** In a well-formed state [change] never updates: a wrong argument count
    is reported, and otherwise the phone built from the argument is a new
    object, which is in no record. *)
Lemma change_contact_never_updates (st : state) (args : list pystr) :
  well_formed st = true ->
  exists msg n,
    change_contact args st = (Ret (VStr msg), mkState (heap st) (data st) n)
    /\ (msg = lit "Enter valid input."
        \/ msg = lit "Invalid input or contact not found.").
Proof.
  intros Hwf. unfold change_contact, input_error, Body.change_contact.
  destruct args as [|nm [|phone [|? ?]]];
    try (exists (lit "Enter valid input."), (next_phone st); destruct st; by split; [|left]).
  unfold find. unfold bind at 1.
  destruct (dict_get (lower nm) (data st)) as [rid|] eqn:Hget.
  - unfold_m. cbn [heap data next_phone].
    assert (exists r, heap st !! rid = Some r) as [r Hr].
    { apply well_formed_spec in Hwf as [_ Hdata].
      apply lookup_lt_is_Some_2.
      assert (In (lower nm, rid) (data st)) as Hin; [|by apply (Hdata _ Hin)].
      clear -Hget. induction (data st) as [|[k v] d IH]; simpl in *; [done|].
      case_bool_decide as Hk; [injection Hget as ->; subst; by left|right; by apply IH]. }
    unfold edit_phone. unfold_m. cbn [heap data next_phone]. rewrite Hr.
    assert (phone_in (mkPhone (next_phone st) phone) (phones r) = false) as ->.
    { pose proof (wf_lookup st rid r Hwf Hr) as Hok.
      unfold record_ok in Hok. apply andb_prop in Hok as [Hp _].
      rewrite forallb_forall in Hp.
      unfold phone_in. apply not_true_is_false. rewrite existsb_exists.
      intros (q & Hq & Heq). specialize (Hp q Hq). apply Nat.ltb_lt in Hp.
      unfold phone_eqb in Heq. apply Nat.eqb_eq in Heq. cbn in Heq. lia. }
    exists (lit "Invalid input or contact not found."), (S (S (next_phone st))).
    by split; [|right].
  - exists (lit "Invalid input or contact not found."), (next_phone st).
    destruct st; by split; [|right].
Qed.

(** ** The program at the inputs where it departs from the specification *)

(** C1: on a book holding John, the command [all] prints an error about
    the undefined name [show_all] instead of the rendering of the record. *)
Theorem all_command_is_undefined :
  main_step a_day (lit "all") john_state
  = (lit "Error: name 'show_all' is not defined. Please try again.", true, john_state)
  /\ map record_str (entries john_state) = [lit "Contact name: John, phones: 1234567890"].
Proof. split; vm_compute; reflexivity. Qed.

(** The same happens in every state. *)
Lemma all_command_never_lists (today : date) (st : state) :
  main_step today (lit "all") st
  = (lit "Error: name 'show_all' is not defined. Please try again.", true, st).
Proof. reflexivity. Qed.

(** C2: with John stored under 1234567890, [change] with the three
    arguments of the specification reports an arity error, and with two
    arguments reports that nothing was found; the book is the same. *)
Theorem change_contact_fails :
  change_contact [lit "John"; lit "1234567890"; lit "0987654321"] john_state
  = (Ret (VStr (lit "Enter valid input.")), john_state)
  /\ change_contact [lit "John"; lit "1234567890"] john_state
     = (Ret (VStr (lit "Invalid input or contact not found.")),
        mkState (heap john_state) (data john_state) 3).
Proof. split; vm_compute; reflexivity. Qed.

(** C3: the record of John holds a phone with the digits 1234567890, yet
    [edit_phone] with another phone object of the same digits raises the
    not-found error; in the scenario of the specification the change is
    refused and the phone query still shows the old number. *)
Theorem edit_phone_ignores_equal_digits :
  map phone_value (flat_map phones (heap john_state)) = [lit "1234567890"]
  /\ edit_phone 0 (mkPhone 1 (lit "1234567890")) (mkPhone 2 (lit "0987654321")) john_state
     = (Raise (ValueError (lit "Phone number not found in the record.")), john_state)
  /\ fst (session a_day
            [lit "add John 1234567890"; lit "change John 1234567890 0987654321";
             lit "phone John"] initial)
     = [lit "Contact added."; lit "Enter valid input.";
        lit "Contact name: John, phones: 1234567890"].
Proof. repeat split; vm_compute; reflexivity. Qed.

(** ** Instances *)

Example john_state_reached :
  snd (session a_day [lit "add John 1234567890"] initial) = john_state.
Proof. vm_compute. reflexivity. Qed.

Lemma get_birthdays_per_week_witness :
  book_ok six_contacts = true
  /\ is_date a_leap_february_day /\ is_date (mkDate 2024 3 3)
  /\ ordinal (mkDate 2024 3 3) = ordinal a_leap_february_day + 7
  /\ get_birthdays_per_week a_leap_february_day six_contacts
     = (Ret [lit "Contact name: Eve, phones: 5550001111, Birthday: 03.03.2024";
             lit "Contact name: John, phones: 1234567890; 0987654321, Birthday: 15.08.1990";
             lit "Contact name: Kim, phones: 5550003333, Birthday: 29.02.2024"],
        six_contacts).
Proof.
  split; [vm_compute; reflexivity|]. split; [vm_compute; reflexivity|].
  split; [vm_compute; reflexivity|]. split; [vm_compute; reflexivity|].
  destruct (get_birthdays_per_week_spec six_contacts a_leap_february_day
              (mkDate 2024 3 3)) as [H _];
    [vm_compute; reflexivity | vm_compute; reflexivity
    | vm_compute; reflexivity | vm_compute; reflexivity |].
  rewrite H. vm_compute. reflexivity.
Defined.

Example three_contacts_upcoming :
  fst (get_birthdays_per_week a_day three_contacts)
  = Ret [lit "Contact name: John, phones: 1234567890, Birthday: 15.08.1990"].
Proof. vm_compute. reflexivity. Qed.

Lemma add_record_then_find_witness :
  let st' := snd (add_record (VRecord 0) john_state) in
  fst (add_record (VRecord 0) john_state) = Ret tt
  /\ find (lit "JOHN") st' = (Ret 0%nat, st')
  /\ heap st' !! 0%nat = Some (mkRecord (lit "John") [mkPhone 0 (lit "1234567890")] None).
Proof.
  apply (add_record_then_find john_state 0
           (mkRecord (lit "John") [mkPhone 0 (lit "1234567890")] None) (lit "JOHN"));
    vm_compute; reflexivity.
Defined.

Lemma failed_call_keeps_book_witness :
  failed (Command HAddContact [lit "John"; lit "12"])
         (fst (run (Command HAddContact [lit "John"; lit "12"]) john_state)) = true
  /\ data (snd (run (Command HAddContact [lit "John"; lit "12"]) john_state))
     = data john_state
  /\ exists garbage,
       heap (snd (run (Command HAddContact [lit "John"; lit "12"]) john_state))
       = heap john_state ++ garbage.
Proof.
  split; [vm_compute; reflexivity|].
  apply (failed_call_keeps_book (Command HAddContact [lit "John"; lit "12"]) john_state).
  vm_compute. reflexivity.
Defined.

Lemma add_contact_overwrites_witness :
  dict_get (lower (lit "JOHN")) (data john_state) = Some 0%nat
  /\ Phone.validate_format (lit "0987654321") = true
  /\ add_contact [lit "JOHN"; lit "0987654321"] john_state
     = (Ret (VStr (lit "Contact added.")),
        mkState [mkRecord (lit "John") [mkPhone 0 (lit "1234567890")] None;
                 mkRecord (lit "JOHN") [mkPhone 1 (lit "0987654321")] None]
                [(lit "john", 1%nat)] 2).
Proof.
  split; [vm_compute; reflexivity|]. split; [vm_compute; reflexivity|].
  apply (add_contact_overwrites john_state (lit "JOHN") (lit "0987654321") 0);
    vm_compute; reflexivity.
Defined.

(** ** Further properties of the book *)

Lemma dict_get_None k d : dict_get k d = None <-> ~ In k (map fst d).
Proof.
  induction d as [|[k1 v1] d IH]; simpl; [tauto|].
  case_bool_decide as Hk; [|tauto].
  split; [done|]. intros H. exfalso. apply H. by left.
Qed.

Lemma dict_set_NoDup k v d : NoDup (map fst d) -> NoDup (map fst (dict_set k v d)).
Proof.
  intros Hd. destruct (dict_get k d) as [old|] eqn:Hget.
  - by rewrite (dict_set_keys k v d old).
  - rewrite (dict_set_new k v d Hget), map_app. simpl.
    apply NoDup_app. split; [done|]. split; [|apply NoDup_singleton].
    intros x Hx. rewrite list_elem_of_singleton. intros ->.
    apply dict_get_None in Hget. apply Hget. by apply list_elem_of_In.
Qed.

Lemma dict_del_NoDup k d : NoDup (map fst d) -> NoDup (map fst (dict_del k d)).
Proof.
  intros Hd. apply (sublist_NoDup _ (map fst d)); [done|].
  apply (fmap_sublist fst), dict_del_sublist.
Qed.

Lemma dict_get_del_eq k d : NoDup (map fst d) -> dict_get k (dict_del k d) = None.
Proof.
  induction d as [|[k1 v1] d IH]; simpl; [done|].
  intros Hd. apply NoDup_cons in Hd as [Hk1 Hd].
  case_bool_decide as Hk.
  - subst. apply dict_get_None. intros Hin. apply Hk1. by apply list_elem_of_In.
  - simpl. rewrite bool_decide_eq_false_2 by done. by apply IH.
Qed.

Lemma keys_unique_data st st' : data st' = data st -> keys_unique st -> keys_unique st'.
Proof. unfold keys_unique. by intros ->. Qed.

Ltac same_data :=
  intros st H; eapply keys_unique_data; [|exact H];
  unfold_m; repeat case_match; simplify_eq; done.

Lemma preserves_unique_Record_new nm : preserves keys_unique (Record_new nm).
Proof. same_data. Qed.

Lemma preserves_unique_Phone_new v : preserves keys_unique (Phone_new v).
Proof. same_data. Qed.

Lemma preserves_unique_add_phone self phone :
  preserves keys_unique (add_phone self phone).
Proof. unfold add_phone. same_data. Qed.

Lemma preserves_unique_Record_add_birthday self b :
  preserves keys_unique (Record_add_birthday self b).
Proof. unfold Record_add_birthday. same_data. Qed.

Lemma preserves_unique_remove_phone self p :
  preserves keys_unique (remove_phone self p).
Proof. unfold remove_phone. same_data. Qed.

Lemma preserves_unique_edit_phone self p q :
  preserves keys_unique (edit_phone self p q).
Proof. unfold edit_phone. same_data. Qed.

Lemma preserves_unique_find_phone self p :
  preserves keys_unique (find_phone self p).
Proof. unfold find_phone. same_data. Qed.

Lemma preserves_unique_add_record rec : preserves keys_unique (add_record rec).
Proof.
  intros st H. unfold add_record. unfold_m.
  repeat case_match; simplify_eq; simpl; try done.
  by apply dict_set_NoDup.
Qed.

Lemma preserves_unique_delete nm : preserves keys_unique (delete nm).
Proof.
  intros st H. unfold delete. unfold_m.
  repeat case_match; simplify_eq; simpl; try done.
  by apply dict_del_NoDup.
Qed.

Create HintDb uniqueness.
#[local] Hint Resolve preserves_ret preserves_raise preserves_find preserves_load
  preserves_get_birthdays_per_week preserves_unique_Record_new
  preserves_unique_Phone_new preserves_unique_add_phone
  preserves_unique_Record_add_birthday preserves_unique_remove_phone
  preserves_unique_edit_phone preserves_unique_find_phone
  preserves_unique_add_record preserves_unique_delete : uniqueness.

Lemma preserves_unique_run (c : call) : preserves keys_unique (run c).
Proof.
  destruct c as [| | | | | | | | | |h args|]; simpl;
    try (unfold birthdays; preserves_steps ltac:(auto with uniqueness); fail).
  destruct h; simpl;
    unfold add_contact, change_contact, show_phone, add_birthday, show_birthday,
      Body.add_contact, Body.change_contact, Body.show_phone, Body.add_birthday,
      Body.show_birthday;
    preserves_steps ltac:(auto with uniqueness).
Qed.

Lemma reachable_keys_unique (calls : list call) : keys_unique (run_all calls initial).
Proof.
  unfold run_all.
  assert (keys_unique initial) as H0 by apply NoDup_nil_2.
  revert H0. generalize initial.
  induction calls as [|c calls IH]; intros st Hst; simpl; [done|].
  apply IH. by apply preserves_unique_run.
Qed.

(** X1: deleting a name the book does not have is reported and nothing
    changes; a name it has is removed, and [find] fails afterwards. *)
Theorem delete_then_find (calls : list call) (nm : pystr) :
  let st := run_all calls initial in
  match dict_get (lower nm) (data st) with
  | None =>
      delete nm st
      = (Raise (ValueError (lit "Record not found in the address book.")), st)
  | Some _ =>
      exists st',
        delete nm st = (Ret tt, st')
        /\ find nm st'
           = (Raise (ValueError (lit "Record not found in the address book.")), st')
  end.
Proof.
  simpl. pose proof (reachable_keys_unique calls) as Hu.
  set (st := run_all calls initial) in *.
  unfold delete, find.
  destruct (dict_get (lower nm) (data st)) as [rid|] eqn:Hget; [|done].
  eexists. split; [done|]. simpl. by rewrite dict_get_del_eq.
Qed.

(** X2: two records whose names differ only by case share one entry; the
    one added last is the one found. *)
Theorem case_variants_collapse (st : state) (rid1 rid2 : nat) (r1 r2 : record) :
  heap st !! rid1 = Some r1 ->
  heap st !! rid2 = Some r2 ->
  lower (name r1) = lower (name r2) ->
  let st1 := snd (add_record (VRecord rid1) st) in
  let st2 := snd (add_record (VRecord rid2) st1) in
  find (name r1) st2 = (Ret rid2, st2)
  /\ find (name r2) st2 = (Ret rid2, st2)
  /\ map fst (data st2) = map fst (data st1).
Proof.
  intros H1 H2 Hlow. unfold add_record, find. unfold_m. rewrite H1. simpl.
  rewrite H2. simpl. rewrite Hlow. rewrite dict_get_set_eq.
  repeat split. by rewrite (dict_set_keys _ _ _ rid1) by apply dict_get_set_eq.
Qed.

Lemma case_variants_collapse_witness :
  let st := snd (Record_new (lit "JOHN") john_state) in
  let st1 := snd (add_record (VRecord 0) st) in
  let st2 := snd (add_record (VRecord 1) st1) in
  find (lit "John") st2 = (Ret 1%nat, st2)
  /\ find (lit "JOHN") st2 = (Ret 1%nat, st2)
  /\ map fst (data st2) = map fst (data st1).
Proof.
  apply (case_variants_collapse (snd (Record_new (lit "JOHN") john_state)) 0 1
           (mkRecord (lit "John") [mkPhone 0 (lit "1234567890")] None)
           (mkRecord (lit "JOHN") [] None));
    vm_compute; reflexivity.
Defined.

(** X3: every state a session reaches from the empty book is well formed,
    and so the upcoming-birthdays query applies to it. *)
Theorem session_states_well_formed (today : date) (inputs : list pystr) :
  well_formed (snd (session today inputs initial)) = true
  /\ book_ok (snd (session today inputs initial)) = true.
Proof.
  assert (wf (snd (session today inputs initial))) as H
    by (by apply session_well_formed).
  split; [done|by apply well_formed_book_ok].
Qed.

(** X4: in no state of a session does [change] update a contact: it answers
    with one of its two error messages and leaves book and records as
    they are. *)
Theorem change_never_succeeds (today : date) (inputs args : list pystr) :
  let st := snd (session today inputs initial) in
  exists msg n,
    change_contact args st = (Ret (VStr msg), mkState (heap st) (data st) n)
    /\ (msg = lit "Enter valid input."
        \/ msg = lit "Invalid input or contact not found.").
Proof.
  simpl. apply change_contact_never_updates. by apply session_well_formed.
Qed.

(** X5: [birthdays] on the empty book answers that there are no upcoming
    birthdays. *)
Theorem birthdays_empty_book (today next_week : date) :
  add_days 7 today = Some next_week ->
  birthdays today initial
  = (Ret (VStr (lit "No upcoming birthdays in the next week.")), initial).
Proof.
  intros H. unfold birthdays, get_birthdays_per_week. by rewrite H.
Qed.

Lemma birthdays_empty_book_witness :
  add_days 7 a_day = Some (mkDate 2024 8 17)
  /\ birthdays a_day initial
     = (Ret (VStr (lit "No upcoming birthdays in the next week.")), initial).
Proof.
  split; [vm_compute; reflexivity|].
  apply (birthdays_empty_book a_day (mkDate 2024 8 17)). vm_compute. reflexivity.
Defined.

(** [add_phone] appends a phone whose format is valid, duplicates
    included, and refuses any other with a validation error. *)
Lemma add_phone_spec (st : state) (self : nat) (r : record) (p : Phone) :
  heap st !! self = Some r ->
  add_phone self (VPhone p) st
  = if Phone.validate_format (phone_value p)
    then (Ret tt,
          mkState (<[self := mkRecord (name r) (phones r ++ [p]) (birthday r)]> (heap st))
                  (data st) (next_phone st))
    else (Raise (ValueError (lit "Invalid phone number format.")), st).
Proof.
  intros Hr. unfold add_phone. destruct (Phone.validate_format _); [|done].
  unfold_m. by rewrite Hr.
Qed.

Lemma phone_eqb_sym (p q : Phone) : phone_eqb p q = phone_eqb q p.
Proof. unfold phone_eqb. apply Nat.eqb_sym. Qed.

Lemma phone_in_last (p : Phone) (l : list Phone) : phone_in p (l ++ [p]) = true.
Proof.
  unfold phone_in. rewrite existsb_app. simpl. unfold phone_eqb.
  by rewrite Nat.eqb_refl, orb_true_r.
Qed.

(** Removing a phone that was appended to a list that did not hold it
    gives the list back. *)
Lemma list_remove_last (p : Phone) (l : list Phone) :
  phone_in p l = false -> list_remove p (l ++ [p]) = l.
Proof.
  induction l as [|q l IH]; simpl.
  - intros _. unfold phone_eqb. by rewrite Nat.eqb_refl.
  - intros H. apply orb_false_elim in H as [Hq Hl].
    rewrite phone_eqb_sym, Hq. by rewrite IH.
Qed.

(** X6: a phone of valid format that the record does not hold yet, once
    added, is found in the record, and removing it again gives back the
    state in which it was added: the same record, phones in the same
    order, and nothing else touched. *)
Theorem added_phone_is_found_and_removed (st : state) (self : nat) (r : record)
    (p : Phone) :
  heap st !! self = Some r ->
  Phone.validate_format (phone_value p) = true ->
  phone_in p (phones r) = false ->
  (add_phone self (VPhone p) ;; find_phone self p) st
  = (Ret (phone_value p),
     mkState (<[self := mkRecord (name r) (phones r ++ [p]) (birthday r)]> (heap st))
             (data st) (next_phone st))
  /\ (add_phone self (VPhone p) ;; remove_phone self p) st = (Ret tt, st).
Proof.
  intros Hr Hvalid Hnew.
  assert (self < length (heap st))%nat as Hlt by (by eapply lookup_lt_Some).
  unfold bind. rewrite (add_phone_spec st self r p Hr), Hvalid. split.
  - unfold find_phone, bind, load. cbn [heap].
    rewrite list_lookup_insert_eq by done. cbn [phones].
    by rewrite phone_in_last.
  - unfold remove_phone, bind, load, store, set_heap. cbn [heap data next_phone].
    rewrite list_lookup_insert_eq by done. cbn [name phones birthday].
    rewrite phone_in_last, list_remove_last by done.
    cbn [heap data next_phone]. rewrite list_insert_insert_eq.
    destruct r as [nm ps bd]. cbn [name phones birthday].
    rewrite list_insert_id by done. by destruct st.
Qed.

Lemma added_phone_is_found_and_removed_witness :
  (add_phone 0 (VPhone (mkPhone 1 (lit "0987654321"))) ;;
   find_phone 0 (mkPhone 1 (lit "0987654321"))) john_state
  = (Ret (lit "0987654321"),
     mkState [mkRecord (lit "John")
                [mkPhone 0 (lit "1234567890"); mkPhone 1 (lit "0987654321")] None]
             [(lit "john", 0%nat)] 1)
  /\ (add_phone 0 (VPhone (mkPhone 1 (lit "0987654321"))) ;;
      remove_phone 0 (mkPhone 1 (lit "0987654321"))) john_state
     = (Ret tt, john_state).
Proof.
  apply (added_phone_is_found_and_removed john_state 0
           (mkRecord (lit "John") [mkPhone 0 (lit "1234567890")] None)
           (mkPhone 1 (lit "0987654321")));
    vm_compute; reflexivity.
Defined.

(** [add_birthday] stores a valid birthday in place of the one the
    record had, and refuses an invalid one with a validation error. *)
Lemma add_birthday_spec (st : state) (self : nat) (r : record) (b : Birthday) :
  heap st !! self = Some r ->
  Record_add_birthday self (VBirthday b) st
  = if Birthday.validate_format (birthday_value b)
    then (Ret tt,
          mkState (<[self := mkRecord (name r) (phones r) (Some b)]> (heap st))
                  (data st) (next_phone st))
    else (Raise (ValueError (lit "Invalid birthday format.")), st).
Proof.
  intros Hr. unfold Record_add_birthday.
  destruct (Birthday.validate_format _); [|done].
  unfold_m. by rewrite Hr.
Qed.

(** X7: a record has one birthday, the last one stored.  Storing a
    second valid birthday leaves the state that storing it alone gives,
    and a birthday that is refused after a valid one was stored leaves the
    first in place. *)
Theorem last_birthday_is_kept (st : state) (self : nat) (r : record)
    (b1 b2 : Birthday) :
  heap st !! self = Some r ->
  Birthday.validate_format (birthday_value b1) = true ->
  (Record_add_birthday self (VBirthday b1) ;;
   Record_add_birthday self (VBirthday b2)) st
  = if Birthday.validate_format (birthday_value b2)
    then (Ret tt,
          mkState (<[self := mkRecord (name r) (phones r) (Some b2)]> (heap st))
                  (data st) (next_phone st))
    else (Raise (ValueError (lit "Invalid birthday format.")),
          mkState (<[self := mkRecord (name r) (phones r) (Some b1)]> (heap st))
                  (data st) (next_phone st)).
Proof.
  intros Hr Hvalid.
  assert (self < length (heap st))%nat as Hlt by (by eapply lookup_lt_Some).
  unfold bind. rewrite (add_birthday_spec st self r b1 Hr), Hvalid.
  erewrite add_birthday_spec
    by (cbn [heap]; by apply list_lookup_insert_eq).
  destruct (Birthday.validate_format (birthday_value b2)); [|done].
  cbn [heap data next_phone name phones]. by rewrite list_insert_insert_eq.
Qed.

Lemma last_birthday_is_kept_witness :
  (Record_add_birthday 0 (VBirthday (mkBirthday (lit "15.08.1990"))) ;;
   Record_add_birthday 0 (VBirthday (mkBirthday (lit "01.01.2000")))) john_state
  = (Ret tt,
     mkState [mkRecord (lit "John") [mkPhone 0 (lit "1234567890")]
                (Some (mkBirthday (lit "01.01.2000")))]
             [(lit "john", 0%nat)] 1).
Proof.
  apply (last_birthday_is_kept john_state 0
           (mkRecord (lit "John") [mkPhone 0 (lit "1234567890")] None)
           (mkBirthday (lit "15.08.1990")) (mkBirthday (lit "01.01.2000")));
    vm_compute; reflexivity.
Defined.

Lemma edit_phone_replaces_witness :
  edit_phone 0 (mkPhone 0 (lit "1234567890")) (mkPhone 1 (lit "0987654321")) john_state
  = (Ret tt,
     mkState [mkRecord (lit "John") [mkPhone 1 (lit "0987654321")] None]
             [(lit "john", 0%nat)] 1).
Proof.
  apply (edit_phone_replaces john_state 0
           (mkRecord (lit "John") [mkPhone 0 (lit "1234567890")] None)
           (mkPhone 0 (lit "1234567890")) (mkPhone 1 (lit "0987654321")) 0);
    vm_compute; reflexivity.
Defined.

(** ** Examples of the specification *)

Example phone_examples :
  Phone.validate_format (lit "1234567890") = true
  /\ Phone.validate_format (lit "+123456789") = false
  /\ Phone.validate_format (lit "123456789") = false
  /\ Phone.validate_format (lit "123-456-78") = false.
Proof. repeat split; reflexivity. Qed.

Example birthday_examples :
  Birthday.validate_format (lit "15.08.1990") = true
  /\ Birthday.validate_format (lit "30.02.1999") = false
  /\ Birthday.validate_format (lit "15.08.90") = false
  /\ Birthday.validate_format (lit "15-08-1990") = false
  /\ Birthday.validate_format (lit "01.01.0000") = false.
Proof. repeat split; reflexivity. Qed.

(** The scenario of the specification, as the program answers it. *)
Example scenario :
  fst (session a_day
         [lit "add John 1234567890"; lit "phone John";
          lit "add-birthday John 15.08.1990"; lit "show-birthday John";
          lit "change John 1234567890 0987654321"; lit "phone John";
          lit "birthdays"; lit "exit"] initial)
  = [lit "Contact added.";
     lit "Contact name: John, phones: 1234567890";
     lit "Birthday added to the contact.";
     lit "15.08.1990";
     lit "Enter valid input.";
     lit "Contact name: John, phones: 1234567890, Birthday: 15.08.1990";
     lit "Contact name: John, phones: 1234567890, Birthday: 15.08.1990";
     lit "Good bye!"].
Proof. vm_compute. reflexivity. Qed.

(** ** Removing and looking up phones *)

Lemma phone_index_None (p : Phone) (l : list Phone) :
  phone_index p l = None -> phone_in p l = false.
Proof.
  induction l as [|q l IH]; simpl; [done|].
  unfold phone_eqb. rewrite (Nat.eqb_sym (phone_id p)).
  destruct (phone_id q =? phone_id p)%nat; [done|].
  destruct (phone_index p l); [done|]. intros _. by apply IH.
Qed.

Lemma list_remove_delete (p : Phone) (l : list Phone) (i : nat) :
  phone_index p l = Some i -> list_remove p l = base.delete i l.
Proof.
  revert i. induction l as [|q l IH]; intros i; simpl; [done|].
  destruct (phone_eqb q p).
  - by intros [= <-].
  - destruct (phone_index p l) as [j|]; [|done].
    intros [= <-]. simpl. by rewrite (IH j).
Qed.

(** X9: [remove_phone] takes out the first occurrence of the phone object
    it is given and keeps the other phones in their order; when that
    object is not in the record it raises the not-found error and changes
    nothing. *)
Theorem remove_phone_spec (st : state) (self : nat) (r : record) (p : Phone) :
  heap st !! self = Some r ->
  remove_phone self p st
  = match phone_index p (phones r) with
    | Some i =>
        (Ret tt,
         mkState (<[self := mkRecord (name r) (base.delete i (phones r)) (birthday r)]> (heap st))
                 (data st) (next_phone st))
    | None => (Raise (ValueError (lit "Phone number not found in the record.")), st)
    end.
Proof.
  intros Hr. unfold remove_phone. unfold_m. rewrite Hr.
  destruct (phone_index p (phones r)) as [i|] eqn:Hi.
  - by rewrite (phone_index_in _ _ _ Hi), (list_remove_delete _ _ _ Hi).
  - by rewrite (phone_index_None _ _ Hi).
Qed.

Lemma remove_phone_spec_witness :
  remove_phone 0 (mkPhone 0 (lit "1234567890")) john_state
  = (Ret tt, mkState [mkRecord (lit "John") [] None] [(lit "john", 0%nat)] 1).
Proof.
  apply (remove_phone_spec john_state 0
           (mkRecord (lit "John") [mkPhone 0 (lit "1234567890")] None)
           (mkPhone 0 (lit "1234567890"))).
  vm_compute. reflexivity.
Defined.

Lemma fresh_phone_in_no_record (st : state) (self : nat) (r : record) (v : pystr) :
  well_formed st = true -> heap st !! self = Some r ->
  phone_in (mkPhone (next_phone st) v) (phones r) = false.
Proof.
  intros Hwf Hr. pose proof (wf_lookup st self r Hwf Hr) as Hok.
  unfold record_ok in Hok. apply andb_prop in Hok as [Hp _].
  rewrite forallb_forall in Hp.
  unfold phone_in. apply not_true_is_false. rewrite existsb_exists.
  intros (q & Hq & Heq). specialize (Hp q Hq). apply Nat.ltb_lt in Hp.
  unfold phone_eqb in Heq. apply Nat.eqb_eq in Heq. cbn in Heq. lia.
Qed.

(** X10: a phone that has just been constructed is found in no record,
    whatever its digits: [find_phone] and [remove_phone] with [Phone(v)]
    raise the not-found error and leave every record as it is. *)
Theorem new_phone_is_never_found (st : state) (self : nat) (r : record) (v : pystr) :
  well_formed st = true ->
  heap st !! self = Some r ->
  let st' := mkState (heap st) (data st) (S (next_phone st)) in
  (p <- Phone_new v ;; find_phone self p) st
  = (Raise (ValueError (lit "Phone number not found in the record.")), st')
  /\ (p <- Phone_new v ;; remove_phone self p) st
     = (Raise (ValueError (lit "Phone number not found in the record.")), st').
Proof.
  intros Hwf Hr. pose proof (fresh_phone_in_no_record st self r v Hwf Hr) as Hin.
  unfold find_phone, remove_phone. unfold_m. cbn [heap]. rewrite Hr.
  cbn [heap data next_phone]. by rewrite Hin.
Qed.

Lemma new_phone_is_never_found_witness :
  let st' := mkState (heap john_state) (data john_state) 2 in
  (p <- Phone_new (lit "1234567890") ;; find_phone 0 p) john_state
  = (Raise (ValueError (lit "Phone number not found in the record.")), st')
  /\ (p <- Phone_new (lit "1234567890") ;; remove_phone 0 p) john_state
     = (Raise (ValueError (lit "Phone number not found in the record.")), st').
Proof.
  apply (new_phone_is_never_found john_state 0
           (mkRecord (lit "John") [mkPhone 0 (lit "1234567890")] None)
           (lit "1234567890"));
    vm_compute; reflexivity.
Defined.

(** ** What the handlers answer *)

Lemma print_call_show_phone args today :
  print_call "show_phone" args today = (v <- show_phone args ;; value_str v).
Proof. reflexivity. Qed.

Lemma print_call_show_birthday args today :
  print_call "show_birthday" args today = (v <- show_birthday args ;; value_str v).
Proof. reflexivity. Qed.

Lemma dict_get_In k v d : dict_get k d = Some v -> In (k, v) d.
Proof.
  induction d as [|[k1 v1] d IH]; simpl; [done|].
  case_bool_decide as Hk; [intros [= ->]; subst; by left|right; by apply IH].
Qed.

Lemma wf_dict_get st k rid :
  well_formed st = true -> dict_get k (data st) = Some rid ->
  exists r, heap st !! rid = Some r.
Proof.
  intros Hwf Hget. apply well_formed_spec in Hwf as [_ Hdata].
  apply lookup_lt_is_Some_2. apply (Hdata (k, rid)). by apply dict_get_In.
Qed.

(** X11: [add] answers "Enter valid input." unless it has exactly two
    arguments, "Invalid input or contact not found." when the phone is not
    valid, and "Contact added." otherwise; it never answers anything else
    and never raises. *)
Theorem add_contact_answer (args : list pystr) (st : state) :
  fst (add_contact args st) = Ret (VStr (add_contact_message args)).
Proof.
  unfold add_contact, input_error, Body.add_contact, add_contact_message.
  destruct args as [|nm [|phone [|? ?]]]; try done.
  unfold add_phone, add_record. unfold_m. cbn [phone_value].
  destruct (Phone.validate_format phone); [|done]. cbn [heap data next_phone].
  rewrite list_lookup_middle by done. cbn [heap data next_phone name phones birthday].
  rewrite insert_snoc. by rewrite list_lookup_middle.
Qed.

(** X12: [add] for a name the book does not have appends an entry at the
    end of the book, under the lowercased name; the record keeps the name
    as typed, and the command [phone] with any case variant of the name
    then prints "Contact name: <name>, phones: <phone>". *)
Theorem add_contact_new (st : state) (nm phone : pystr) :
  dict_get (lower nm) (data st) = None ->
  Phone.validate_format phone = true ->
  let fresh := length (heap st) in
  let created := mkRecord nm [mkPhone (next_phone st) phone] None in
  let st' := mkState (heap st ++ [created])
                     (data st ++ [(lower nm, fresh)])
                     (S (next_phone st)) in
  add_contact [nm; phone] st = (Ret (VStr (lit "Contact added.")), st')
  /\ forall variant today, lower variant = lower nm ->
       print_call "show_phone" [variant] today st'
       = (Ret (lit "Contact name: " ++ nm ++ lit ", phones: " ++ phone), st').
Proof.
  intros Hnew Hvalid. simpl. split.
  - unfold add_contact, input_error, Body.add_contact, add_phone, add_record.
    unfold_m. cbn [phone_value]. rewrite Hvalid. cbn [heap data next_phone].
    rewrite list_lookup_middle by done. cbn [heap data next_phone name phones birthday].
    rewrite insert_snoc. rewrite list_lookup_middle by done.
    cbn [name]. by rewrite (dict_set_new _ _ _ Hnew).
  - intros variant today Hv.
    rewrite print_call_show_phone.
    unfold show_phone, input_error, Body.show_phone, find, value_str.
    unfold_m. cbn [heap data next_phone]. rewrite Hv.
    rewrite <- (dict_set_new _ (length (heap st)) _ Hnew), dict_get_set_eq.
    cbn [heap data next_phone].
    rewrite list_lookup_middle by done.
    unfold record_str. cbn [name phones birthday map phone_value join].
    by rewrite app_nil_r.
Qed.

Lemma add_contact_new_witness :
  dict_get (lower (lit "Ann")) (data john_state) = None
  /\ Phone.validate_format (lit "1112223334") = true
  /\ add_contact [lit "Ann"; lit "1112223334"] john_state
     = (Ret (VStr (lit "Contact added.")),
        mkState [mkRecord (lit "John") [mkPhone 0 (lit "1234567890")] None;
                 mkRecord (lit "Ann") [mkPhone 1 (lit "1112223334")] None]
                [(lit "john", 0%nat); (lit "ann", 1%nat)] 2).
Proof.
  split; [vm_compute; reflexivity|]. split; [vm_compute; reflexivity|].
  apply (add_contact_new john_state (lit "Ann") (lit "1112223334"));
    vm_compute; reflexivity.
Defined.

(** X13: the command [phone] prints the rendering of the whole record of
    the contact, not a phone; for a name the book does not have it prints
    "Invalid input or contact not found.", and with another number of
    arguments than one "Enter valid input."; the state is unchanged. *)
Theorem phone_command_output (st : state) (args : list pystr) (today : date) :
  well_formed st = true ->
  print_call "show_phone" args today st = (Ret (phone_output st args), st).
Proof.
  intros Hwf.
  rewrite print_call_show_phone.
  unfold show_phone, input_error, Body.show_phone, find, value_str, phone_output.
  unfold_m.
  destruct args as [|nm [|? ?]]; try done.
  destruct (dict_get (lower nm) (data st)) as [rid|] eqn:Hget; [|done].
  destruct (wf_dict_get st _ rid Hwf Hget) as [r Hr]. by rewrite Hr.
Qed.

Lemma phone_command_output_witness :
  well_formed john_state = true
  /\ print_call "show_phone" [lit "JOHN"] a_day john_state
     = (Ret (lit "Contact name: John, phones: 1234567890"), john_state).
Proof.
  split; [vm_compute; reflexivity|].
  apply (phone_command_output john_state [lit "JOHN"] a_day). vm_compute. reflexivity.
Defined.

(** X14: the command [show-birthday] prints the stored birthday of the
    contact, "Birthday not found." when the contact has none, "Invalid
    input or contact not found." for a name the book does not have and
    "Enter valid input." with another number of arguments than one; the
    state is unchanged. *)
Theorem show_birthday_command_output (st : state) (args : list pystr) (today : date) :
  well_formed st = true ->
  print_call "show_birthday" args today st = (Ret (show_birthday_output st args), st).
Proof.
  intros Hwf.
  rewrite print_call_show_birthday.
  unfold show_birthday, input_error, Body.show_birthday, find, value_str,
    show_birthday_output.
  unfold_m.
  destruct args as [|nm [|? ?]]; try done.
  destruct (dict_get (lower nm) (data st)) as [rid|] eqn:Hget; [|done].
  destruct (wf_dict_get st _ rid Hwf Hget) as [r Hr]. rewrite Hr.
  destruct (birthday r) as [b|] eqn:Hb; [|done].
  by rewrite Hget, Hr, Hb.
Qed.

Lemma show_birthday_command_output_witness :
  well_formed john_state = true
  /\ print_call "show_birthday" [lit "John"] a_day john_state
     = (Ret (lit "Birthday not found."), john_state).
Proof.
  split; [vm_compute; reflexivity|].
  apply (show_birthday_command_output john_state [lit "John"] a_day).
  vm_compute. reflexivity.
Defined.

(** X15: [add-birthday] with a valid date for a contact of the book stores
    the date in the contact's record, replacing the one it had and
    keeping name and phones, and [show-birthday] with any case variant of
    the name then returns that date. *)
Theorem add_birthday_then_show (st : state) (nm variant bd : pystr)
    (rid : nat) (r : record) :
  dict_get (lower nm) (data st) = Some rid ->
  heap st !! rid = Some r ->
  Birthday.validate_format bd = true ->
  lower variant = lower nm ->
  let st' := mkState (<[rid := mkRecord (name r) (phones r) (Some (mkBirthday bd))]> (heap st))
                     (data st) (next_phone st) in
  add_birthday [nm; bd] st = (Ret (VStr (lit "Birthday added to the contact.")), st')
  /\ show_birthday [variant] st' = (Ret (VBirthday (mkBirthday bd)), st').
Proof.
  intros Hget Hr Hvalid Hv. simpl.
  assert (rid < length (heap st))%nat as Hlt by (by eapply lookup_lt_Some).
  split.
  - unfold add_birthday, input_error, Body.add_birthday, find, Record_add_birthday.
    unfold_m. rewrite Hget. cbn [birthday_value]. by rewrite Hvalid, Hr.
  - unfold show_birthday, input_error, Body.show_birthday, find.
    unfold_m. cbn [heap data next_phone]. rewrite Hv, Hget.
    cbn [heap data next_phone].
    rewrite list_lookup_insert_eq by done. cbn [birthday heap data next_phone].
    rewrite Hget. cbn [heap data next_phone].
    by rewrite list_lookup_insert_eq.
Qed.

Lemma add_birthday_then_show_witness :
  let st' := mkState [mkRecord (lit "John") [mkPhone 0 (lit "1234567890")]
                        (Some (mkBirthday (lit "15.08.1990")))]
                     [(lit "john", 0%nat)] 1 in
  add_birthday [lit "John"; lit "15.08.1990"] john_state
  = (Ret (VStr (lit "Birthday added to the contact.")), st')
  /\ show_birthday [lit "JOHN"] st' = (Ret (VBirthday (mkBirthday (lit "15.08.1990"))), st').
Proof.
  apply (add_birthday_then_show john_state (lit "John") (lit "JOHN") (lit "15.08.1990") 0
           (mkRecord (lit "John") [mkPhone 0 (lit "1234567890")] None));
    vm_compute; reflexivity.
Defined.

(** ** Reading a command line *)

Lemma split_from_token (t cur rest : pystr) :
  forallb (fun c => negb (Unicode.is_space c)) t = true ->
  split_from cur (t ++ rest) = split_from (rev t ++ cur) rest.
Proof.
  revert cur. induction t as [|c t IH]; intros cur H; [done|].
  cbn [forallb] in H. apply andb_prop in H as [Hc Ht].
  apply negb_true_iff in Hc.
  cbn [app split_from]. rewrite Hc. rewrite (IH (c :: cur) Ht).
  cbn [rev]. by rewrite <- app_assoc.
Qed.

Lemma split_from_blank (s rest : pystr) :
  blank s = true -> split_from [] (s ++ rest) = split_from [] rest.
Proof.
  unfold blank. induction s as [|c s IH]; intros H; [done|].
  cbn [forallb] in H. apply andb_prop in H as [Hc Hs].
  cbn [app split_from]. rewrite Hc. by apply IH.
Qed.

Lemma split_from_space (cur : pystr) (c : N) (s : pystr) :
  Unicode.is_space c = true -> cur <> [] ->
  split_from cur (c :: s) = rev cur :: split_from [] s.
Proof. intros Hc Hcur. cbn [split_from]. rewrite Hc. by destruct cur. Qed.

Lemma split_from_end (cur : pystr) : cur <> [] -> split_from cur [] = [rev cur].
Proof. by destruct cur. Qed.

Lemma token_nonempty (t : pystr) : token t = true -> t <> [].
Proof. by destruct t. Qed.

Lemma token_chars (t : pystr) :
  token t = true -> forallb (fun c => negb (Unicode.is_space c)) t = true.
Proof. by destruct t. Qed.

Lemma rev_nonempty {A} (l : list A) : l <> [] -> rev l <> [].
Proof.
  intros Hl Hr. apply Hl. rewrite <- (rev_involutive l). by rewrite Hr.
Qed.

Lemma split_from_only_blank (s : pystr) : blank s = true -> split_from [] s = [].
Proof.
  intros H. rewrite <- (app_nil_r s). by rewrite (split_from_blank s [] H).
Qed.

(** A token followed by whitespace is read back as one word. *)
Lemma split_from_last (t trail : pystr) :
  token t = true -> blank trail = true -> split_from [] (t ++ trail) = [t].
Proof.
  intros Ht Htrail.
  rewrite (split_from_token t [] trail (token_chars t Ht)). rewrite app_nil_r.
  pose proof (rev_nonempty t (token_nonempty t Ht)) as Hne.
  destruct trail as [|c trail].
  - rewrite (split_from_end _ Hne). by rewrite rev_involutive.
  - unfold blank in Htrail. cbn [forallb] in Htrail.
    apply andb_prop in Htrail as [Hc Htrail].
    rewrite (split_from_space _ c trail Hc Hne), rev_involutive.
    by rewrite (split_from_only_blank trail Htrail).
Qed.

Lemma split_join (t : pystr) (ts : list pystr) (trail : pystr) :
  token t = true -> forallb token ts = true -> blank trail = true ->
  split_from [] (join [32%N] (t :: ts) ++ trail) = t :: ts.
Proof.
  revert t. induction ts as [|t2 ts IH]; intros t Ht Hts Htrail.
  - cbn [join]. by apply split_from_last.
  - cbn [forallb] in Hts. apply andb_prop in Hts as [Ht2 Hts].
    change (join [32%N] (t :: t2 :: ts)) with (t ++ [32%N] ++ join [32%N] (t2 :: ts)).
    rewrite <- !app_assoc.
    rewrite (split_from_token t [] _ (token_chars t Ht)). rewrite app_nil_r.
    cbn [app].
    rewrite split_from_space;
      [|reflexivity|by apply rev_nonempty, token_nonempty].
    rewrite rev_involutive. f_equal. by apply IH.
Qed.

Lemma lstrip_token (t : pystr) : token t = true -> lstrip t = t.
Proof.
  destruct t as [|c t]; [done|]. cbn [token forallb lstrip]. intros H.
  apply andb_prop in H as [Hc _]. apply negb_true_iff in Hc. by rewrite Hc.
Qed.

Lemma token_rev (t : pystr) : token t = true -> token (rev t) = true.
Proof.
  intros Ht. pose proof (rev_nonempty t (token_nonempty t Ht)) as Hne.
  pose proof (token_chars t Ht) as Hc.
  destruct (rev t) as [|c r] eqn:Hr; [done|].
  unfold token. rewrite <- Hr. rewrite forallb_forall in *.
  intros x Hx. apply Hc. by apply in_rev.
Qed.

Lemma strip_token (t : pystr) : token t = true -> strip t = t.
Proof.
  intros Ht. unfold strip. rewrite (lstrip_token t Ht).
  rewrite (lstrip_token (rev t) (token_rev t Ht)). apply rev_involutive.
Qed.

(** X16: [parse_input] reads a line of words separated by single spaces,
    with any whitespace before and after, as the first word in lower case
    and the other words as they are. *)
Theorem parse_input_words (lead trail cmd : pystr) (args : list pystr) (st : state) :
  blank lead = true -> blank trail = true ->
  token cmd = true -> forallb token args = true ->
  parse_input (lead ++ join [32%N] (cmd :: args) ++ trail) st
  = (Ret (lower cmd, args), st).
Proof.
  intros Hlead Htrail Hcmd Hargs. unfold parse_input, split.
  rewrite (split_from_blank lead _ Hlead).
  rewrite (split_join cmd args trail Hcmd Hargs Htrail).
  by rewrite (strip_token cmd Hcmd).
Qed.

Lemma parse_input_words_witness :
  parse_input (lit "  ADD John 1234567890 ") initial
  = (Ret (lit "add", [lit "John"; lit "1234567890"]), initial).
Proof.
  apply (parse_input_words (lit "  ") (lit " ") (lit "ADD")
           [lit "John"; lit "1234567890"] initial);
    vm_compute; reflexivity.
Defined.

Lemma split_blank (s : pystr) : blank s = true -> split s = [].
Proof.
  intros H. unfold split. rewrite <- (app_nil_r s).
  by rewrite (split_from_blank s [] H).
Qed.

(** X17: a line that is empty or holds only whitespace is not a command:
    the loop prints the error of the failed unpacking and goes on, and the
    state is unchanged. *)
Theorem blank_line_is_reported (today : date) (s : pystr) (st : state) :
  blank s = true ->
  main_step today s st
  = (lit "Error: not enough values to unpack (expected at least 1, got 0). Please try again.",
     true, st).
Proof.
  intros H. unfold main_step, turn, parse_input, bind.
  by rewrite (split_blank s H).
Qed.

Lemma blank_line_is_reported_witness :
  main_step a_day (lit "   ") john_state
  = (lit "Error: not enough values to unpack (expected at least 1, got 0). Please try again.",
     true, john_state).
Proof.
  apply (blank_line_is_reported a_day (lit "   ") john_state).
  vm_compute. reflexivity.
Defined.

(** ** The loop *)

Lemma value_str_state v st o st' : value_str v st = (o, st') -> st' = st.
Proof. unfold value_str. crush_m. Qed.

Lemma show_phone_state args st o st' : show_phone args st = (o, st') -> st' = st.
Proof. unfold show_phone, input_error, Body.show_phone, find. crush_m. Qed.

Lemma show_birthday_handler_state args st o st' :
  show_birthday args st = (o, st') -> st' = st.
Proof.
  unfold show_birthday, input_error. intros H.
  destruct (Body.show_birthday args st) as [[v|e] st1] eqn:Hb;
    apply show_birthday_state in Hb as ->; by simplify_eq.
Qed.

Lemma birthdays_state today st o st' : birthdays today st = (o, st') -> st' = st.
Proof.
  unfold birthdays, bind. intros H.
  destruct (get_birthdays_per_week today st) as [[l|e] st1] eqn:Hg;
    apply get_birthdays_per_week_state in Hg as ->;
    [destruct l|]; unfold ret in H; by simplify_eq.
Qed.

Lemma print_call_birthdays args today :
  print_call "birthdays" args today = (v <- birthdays today ;; value_str v).
Proof. reflexivity. Qed.

Lemma print_call_show_all args today st :
  print_call "show_all" args today st = (Raise (NameError (lit "show_all")), st).
Proof. reflexivity. Qed.

(** The calls of [main] that only read. *)
Lemma print_call_quiet nm args today st o st' :
  In nm ["show_phone"; "show_all"; "show_birthday"; "birthdays"]%string ->
  print_call nm args today st = (o, st') -> st' = st.
Proof.
  intros Hin. simpl in Hin. destruct Hin as [<-|[<-|[<-|[<-|[]]]]].
  - rewrite print_call_show_phone. unfold bind. intros H.
    destruct (show_phone args st) as [[v|e] st1] eqn:H1;
      apply show_phone_state in H1 as ->;
      [by apply value_str_state in H|by simplify_eq].
  - rewrite print_call_show_all. intros H. by simplify_eq.
  - rewrite print_call_show_birthday. unfold bind. intros H.
    destruct (show_birthday args st) as [[v|e] st1] eqn:H1;
      apply show_birthday_handler_state in H1 as ->;
      [by apply value_str_state in H|by simplify_eq].
  - rewrite print_call_birthdays. unfold bind. intros H.
    destruct (birthdays today st) as [[v|e] st1] eqn:H1;
      apply birthdays_state in H1 as ->;
      [by apply value_str_state in H|by simplify_eq].
Qed.

(** X18: the loop ends exactly on the commands [close] and [exit], in any
    letter case; it then prints "Good bye!" and leaves the state as it
    is.  No other line, valid or not, ends it. *)
Theorem loop_ends_on_close_or_exit (today : date) (s : pystr) (st : state) :
  (snd (fst (main_step today s st)) = false
   <-> command_of s = Some (lit "close") \/ command_of s = Some (lit "exit"))
  /\ (snd (fst (main_step today s st)) = false ->
      main_step today s st = (lit "Good bye!", false, st)).
Proof.
  unfold main_step, turn, parse_input, command_of, bind, raise, ret.
  destruct (split s) as [|cmd args].
  - cbn [fst snd]. split; [split; [done|by intros [?|?]]|done].
  - cbn [fst snd]. remember (lower (strip cmd)) as c eqn:Hc. clear Hc.
    assert ((Some c = Some (lit "close") \/ Some c = Some (lit "exit"))
            <-> c ∈ [lit "close"; lit "exit"]) as Hiff.
    { rewrite list_elem_of_In. simpl. split.
      - intros [[= ->]|[= ->]]; auto.
      - intros [<-|[<-|[]]]; auto. }
    rewrite Hiff. clear Hiff.
    destruct (bool_decide_reflect (c ∈ [lit "close"; lit "exit"])) as [Hin|Hnin].
    + cbn [fst snd]. split; [split; done|done].
    + repeat match goal with
             | |- context [bool_decide ?P] => destruct (bool_decide P)
             end;
        try match goal with
            | |- context [print_call ?n ?a ?t ?x] =>
                destruct (print_call n a t x) as [[?|?] ?]
            end;
        cbn [fst snd]; (split; [split; done|done]).
Qed.

(** X19: only the commands [add], [change] and [add-birthday] can change
    the state; every other line (a query, [hello], [all], an unknown
    command, a blank line, [close]) leaves it exactly as it was. *)
Theorem other_commands_keep_state (today : date) (s : pystr) (st : state) :
  changes_state s = false -> snd (main_step today s st) = st.
Proof.
  unfold changes_state, command_of, main_step, turn, parse_input, bind, raise, ret.
  destruct (split s) as [|cmd args]; [done|]. cbn [fst snd].
  remember (lower (strip cmd)) as c eqn:Hc. clear Hc.
  intros H. apply bool_decide_eq_false in H.
  assert (forall x, In x [lit "add"; lit "change"; lit "add-birthday"] -> c <> x) as Hne.
  { intros x Hx ->. apply H. by apply list_elem_of_In. }
  destruct (bool_decide (c ∈ [lit "close"; lit "exit"])); [done|].
  destruct (bool_decide (c = lit "hello")); [done|].
  destruct (bool_decide_reflect (c = lit "add")) as [Heq|_];
    [exfalso; apply (Hne (lit "add")); [simpl; auto|done]|].
  destruct (bool_decide_reflect (c = lit "change")) as [Heq|_];
    [exfalso; apply (Hne (lit "change")); [simpl; auto|done]|].
  destruct (bool_decide (c = lit "phone")).
  { destruct (print_call _ _ _ _) as [[out|e] st1] eqn:Hp;
      apply print_call_quiet in Hp; [by subst|simpl; auto|by subst|simpl; auto]. }
  destruct (bool_decide (c = lit "all")).
  { destruct (print_call _ _ _ _) as [[out|e] st1] eqn:Hp;
      apply print_call_quiet in Hp; [by subst|simpl; auto|by subst|simpl; auto]. }
  destruct (bool_decide_reflect (c = lit "add-birthday")) as [Heq|_];
    [exfalso; apply (Hne (lit "add-birthday")); [simpl; auto|done]|].
  destruct (bool_decide (c = lit "show-birthday")).
  { destruct (print_call _ _ _ _) as [[out|e] st1] eqn:Hp;
      apply print_call_quiet in Hp; [by subst|simpl; auto|by subst|simpl; auto]. }
  destruct (bool_decide (c = lit "birthdays")); [|done].
  destruct (print_call _ _ _ _) as [[out|e] st1] eqn:Hp;
    apply print_call_quiet in Hp; [by subst|simpl; auto|by subst|simpl; auto].
Qed.

Lemma other_commands_keep_state_witness :
  changes_state (lit "show-birthday John") = false
  /\ snd (main_step a_day (lit "show-birthday John") john_state) = john_state.
Proof.
  split; [vm_compute; reflexivity|].
  apply (other_commands_keep_state a_day (lit "show-birthday John") john_state).
  vm_compute. reflexivity.
Defined.

(** ** Dates *)

Lemma days_in_month_max (y m : Z) : days_in_month y m <= 31.
Proof. unfold days_in_month. repeat case_match; lia. Qed.

Lemma days_in_month_january (y : Z) : days_in_month y 1 = 31.
Proof. reflexivity. Qed.

(** Up to a month ahead, adding days overflows only in the last year. *)
Lemma add_days_defined (n : nat) (t : date) :
  (n <= 31)%nat ->
  year t < 9999 \/ (month t = 1 /\ day t + Z.of_nat n <= 31) ->
  exists t', add_days n t = Some t'.
Proof.
  revert t. induction n as [|n IH]; intros t Hn HJ; [by eexists|].
  cbn [add_days]. unfold next_day, MAXYEAR.
  destruct (Z.ltb_spec (day t) (days_in_month (year t) (month t))) as [Hd|Hd].
  - apply IH; [lia|]. cbn [year month day].
    destruct HJ as [?|[? ?]]; [by left|right; lia].
  - destruct (Z.ltb_spec (month t) 12) as [Hm|Hm].
    + apply IH; [lia|]. cbn [year month day].
      destruct HJ as [?|[Hm1 Hday]]; [by left|]. exfalso.
      rewrite Hm1, days_in_month_january in Hd. lia.
    + destruct (Z.ltb_spec (year t) 9999) as [Hy|Hy].
      * apply IH; [lia|]. cbn [year month day].
        destruct (decide (year t + 1 < 9999)); [by left|right; lia].
      * exfalso. destruct HJ as [?|[? ?]]; lia.
Qed.

Lemma date_le_iff (a b : date) :
  date_le a b = true
  <-> year a < year b
      \/ (year a = year b
          /\ (month a < month b \/ (month a = month b /\ day a <= day b))).
Proof.
  unfold date_le.
  destruct (Z.ltb_spec (year a) (year b)), (Z.eqb_spec (year a) (year b)),
    (Z.ltb_spec (month a) (month b)), (Z.eqb_spec (month a) (month b)),
    (Z.leb_spec (day a) (day b));
    simpl; split; intros ?; try done; lia.
Qed.

Lemma date_le_next_day (t t' : date) : next_day t = Some t' -> date_le t t' = true.
Proof.
  unfold next_day. intros H. apply date_le_iff.
  repeat case_match; simplify_eq; cbn [year month day]; lia.
Qed.

Lemma date_le_add_days (n : nat) (t t' : date) :
  add_days n t = Some t' -> date_le t t' = true.
Proof.
  revert t. induction n as [|n IH]; intros t; cbn [add_days].
  - intros [= ->]. apply date_le_iff. lia.
  - destruct (next_day t) as [t1|] eqn:H1; [|done]. intros H.
    apply date_le_next_day in H1. apply IH in H.
    apply date_le_iff in H1, H. apply date_le_iff. lia.
Qed.

Lemma wf_initial : wf initial.
Proof. reflexivity. Qed.

(** X20: in every state of a session and on every day before the year
    9999, the upcoming-birthdays query returns a list: it does not raise,
    neither on a stored birthday nor on the date arithmetic, and it leaves
    the state as it is. *)
Theorem birthdays_query_returns (today : date) (inputs : list pystr) :
  year today < 9999 ->
  let st := snd (session today inputs initial) in
  exists l, get_birthdays_per_week today st = (Ret l, st).
Proof.
  intros Hy. simpl.
  destruct (add_days_defined 7 today) as [nw Hnw]; [lia|by left|].
  pose proof (session_well_formed today inputs initial wf_initial) as Hwf.
  pose proof (well_formed_book_ok _ Hwf) as Hok.
  unfold get_birthdays_per_week. rewrite Hnw. unfold bind, get_state.
  rewrite birthdays_loop_spec by exact Hok. by eexists.
Qed.

Lemma birthdays_query_returns_witness :
  exists l,
    get_birthdays_per_week a_day
      (snd (session a_day [lit "add John 1234567890";
                           lit "add-birthday John 15.08.1990"] initial))
    = (Ret l,
       snd (session a_day [lit "add John 1234567890";
                           lit "add-birthday John 15.08.1990"] initial)).
Proof.
  apply (birthdays_query_returns a_day
           [lit "add John 1234567890"; lit "add-birthday John 15.08.1990"]).
  vm_compute. reflexivity.
Defined.

(** X21: the query compares the stored date with its year, so a contact
    whose birthday is not later than today is listed by every query:
    its rendering is in the returned list. *)
Theorem past_birthdays_are_listed (st : state) (today next_week : date)
    (k : pystr) (rid : nat) (r : record) (b : Birthday) (d : date) :
  book_ok st = true ->
  add_days 7 today = Some next_week ->
  In (k, rid) (data st) ->
  heap st !! rid = Some r ->
  birthday r = Some b ->
  strptime_dmY (birthday_value b) = inr d ->
  date_le d today = true ->
  exists l, get_birthdays_per_week today st = (Ret l, st) /\ In (record_str r) l.
Proof.
  intros Hok Hnw Hin Hr Hb Hd Hle.
  exists (map record_str (List.filter (upcoming next_week) (entries st))). split.
  - unfold get_birthdays_per_week. rewrite Hnw. unfold bind, get_state.
    by rewrite birthdays_loop_spec.
  - apply in_map, filter_In. split.
    + unfold entries. apply list_elem_of_In, list_elem_of_omap.
      exists (k, rid). split; [by apply list_elem_of_In|done].
    + unfold upcoming. rewrite Hb, Hd. apply date_le_add_days in Hnw.
      apply date_le_iff in Hle, Hnw. apply date_le_iff. lia.
Qed.

Lemma past_birthdays_are_listed_witness :
  exists l,
    get_birthdays_per_week a_day three_contacts = (Ret l, three_contacts)
    /\ In (record_str (mkRecord (lit "John") [mkPhone 0 (lit "1234567890")]
                         (Some (mkBirthday (lit "15.08.1990"))))) l.
Proof.
  apply (past_birthdays_are_listed three_contacts a_day (mkDate 2024 8 17)
           (lit "john") 0
           (mkRecord (lit "John") [mkPhone 0 (lit "1234567890")]
              (Some (mkBirthday (lit "15.08.1990"))))
           (mkBirthday (lit "15.08.1990")) (mkDate 1990 8 15));
    [vm_compute; reflexivity | vm_compute; reflexivity
    | vm_compute; left; reflexivity | vm_compute; reflexivity
    | reflexivity | vm_compute; reflexivity | vm_compute; reflexivity].
Defined.

Lemma range_check (P : Z -> bool) (lo n : nat) :
  forallb P (map Z.of_nat (seq lo n)) = true ->
  forall z, Z.of_nat lo <= z < Z.of_nat (lo + n) -> P z = true.
Proof.
  intros H z Hz. rewrite forallb_forall in H. apply H.
  apply in_map_iff. exists (Z.to_nat z). split; [lia|]. apply in_seq. lia.
Qed.

Lemma two_digits_day (d : Z) :
  1 <= d <= 31 -> day_text (two_digits d) = true /\ py_int (two_digits d) = Some d.
Proof.
  intros H.
  assert (forallb (fun z => day_text (two_digits z)
                            && match py_int (two_digits z) with
                               | Some v => v =? z
                               | None => false
                               end)
            (map Z.of_nat (seq 1 31)) = true) as Hall by (vm_compute; reflexivity).
  pose proof (range_check _ 1 31 Hall d ltac:(lia)) as Hd. cbv beta in Hd.
  apply andb_prop in Hd as [Ht Hp]. split; [done|].
  destruct (py_int (two_digits d)) as [v|]; [|done].
  apply Z.eqb_eq in Hp. by subst.
Qed.

Lemma two_digits_month (m : Z) :
  1 <= m <= 12 -> month_text (two_digits m) = true /\ py_int (two_digits m) = Some m.
Proof.
  intros H.
  assert (forallb (fun z => month_text (two_digits z)
                            && match py_int (two_digits z) with
                               | Some v => v =? z
                               | None => false
                               end)
            (map Z.of_nat (seq 1 12)) = true) as Hall by (vm_compute; reflexivity).
  pose proof (range_check _ 1 12 Hall m ltac:(lia)) as Hm. cbv beta in Hm.
  apply andb_prop in Hm as [Ht Hp]. split; [done|].
  destruct (py_int (two_digits m)) as [v|]; [|done].
  apply Z.eqb_eq in Hp. by subst.
Qed.

Lemma four_digits_year (y : Z) :
  1 <= y <= 9999 -> year_text (four_digits y) = true /\ py_int (four_digits y) = Some y.
Proof.
  intros H.
  assert (forallb (fun z => year_text (four_digits z)
                            && match py_int (four_digits z) with
                               | Some v => v =? z
                               | None => false
                               end)
            (map Z.of_nat (seq 1 (Z.to_nat 9999))) = true) as Hall
    by (vm_compute; reflexivity).
  pose proof (range_check _ 1 (Z.to_nat 9999) Hall y ltac:(lia)) as Hy. cbv beta in Hy.
  apply andb_prop in Hy as [Ht Hp]. split; [done|].
  destruct (py_int (four_digits y)) as [v|]; [|done].
  apply Z.eqb_eq in Hp. by subst.
Qed.

(** X22: every real calendar date of the years 1 to 9999, written
    [DD.MM.YYYY] with leading zeros, passes the birthday validation, and
    the query reads it back as that same date. *)
Theorem written_dates_are_read_back (y m d : Z) :
  valid_date y m d = true ->
  strptime_dmY (write_date y m d) = inr (mkDate y m d)
  /\ Birthday.validate_format (write_date y m d) = true.
Proof.
  intros Hv.
  assert (strptime_dmY (write_date y m d) = inr (mkDate y m d)) as H.
  { apply strptime_dmY_spec. split; [|done].
    unfold valid_date, MINYEAR, MAXYEAR in Hv. split_bools.
    repeat match goal with
           | H : (_ <=? _) = true |- _ => apply Z.leb_le in H
           end.
    pose proof (days_in_month_max y m).
    destruct (two_digits_day d) as [? ?]; [lia|].
    destruct (two_digits_month m) as [? ?]; [lia|].
    destruct (four_digits_year y) as [? ?]; [lia|].
    exists (two_digits d), (two_digits m), (four_digits y). done. }
  split; [done|]. unfold Birthday.validate_format. by rewrite H.
Qed.

Lemma written_dates_are_read_back_witness :
  strptime_dmY (write_date 2000 2 29) = inr (mkDate 2000 2 29)
  /\ Birthday.validate_format (write_date 2000 2 29) = true.
Proof.
  apply (written_dates_are_read_back 2000 2 29). vm_compute. reflexivity.
Defined.

(** ** What a session can and cannot do to the book *)

Lemma preserves_quiet (P : state -> Prop) {A} (m : M A) :
  (forall st o st', m st = (o, st') -> st' = st) -> preserves P m.
Proof.
  intros Hq st HP. destruct (m st) as [o st'] eqn:Hm.
  by rewrite (Hq st o st' Hm).
Qed.

(** A property kept by the three handlers that write is kept by every
    turn of the loop. *)
Lemma print_call_preserves (P : state -> Prop) nm args today :
  (forall a, preserves P (add_contact a)) ->
  (forall a, preserves P (change_contact a)) ->
  (forall a, preserves P (add_birthday a)) ->
  preserves P (print_call nm args today).
Proof.
  intros Hadd Hchange Hbd. unfold print_call, load_global.
  intros st HP. unfold bind at 1.
  destruct (List.find _ module_functions) as [[n f]|] eqn:Hf; [|done].
  apply find_some in Hf as [Hin _]. cbn [snd ret].
  revert st HP. change (preserves P
    (v <- match f with Handler h => h args | BookFunction g => g today end ;;
     value_str v)).
  apply preserves_bind;
    [|intros v; apply preserves_quiet; intros st1 o st2; apply value_str_state].
  unfold module_functions in Hin. simpl in Hin.
  repeat destruct Hin as [[= <- <-]|Hin];
    first [ done | apply Hadd | apply Hchange | apply Hbd
          | apply preserves_quiet; intros st1 o st2;
            first [ apply show_phone_state
                  | apply show_birthday_handler_state
                  | apply birthdays_state ] ].
Qed.

Lemma turn_preserves (P : state -> Prop) today user_input :
  (forall a, preserves P (add_contact a)) ->
  (forall a, preserves P (change_contact a)) ->
  (forall a, preserves P (add_birthday a)) ->
  preserves P (turn today user_input).
Proof.
  intros Hadd Hchange Hbd. unfold turn. apply preserves_bind.
  - unfold parse_input.
    destruct (split user_input); [apply preserves_raise|apply preserves_ret].
  - intros [command args]. cbn [fst snd].
    repeat match goal with
           | |- preserves _ (if ?b then _ else _) => destruct b
           | |- preserves _ (ret _) => apply preserves_ret
           | |- preserves _ (bind (print_call _ _ _) _) =>
               apply preserves_bind; [by apply print_call_preserves|intros ?]
           end.
Qed.

Lemma session_preserves (P : state -> Prop) today inputs st :
  (forall a, preserves P (add_contact a)) ->
  (forall a, preserves P (change_contact a)) ->
  (forall a, preserves P (add_birthday a)) ->
  P st -> P (snd (session today inputs st)).
Proof.
  intros Hadd Hchange Hbd. revert st.
  induction inputs as [|line inputs IH]; intros st HP; simpl; [done|].
  assert (P (snd (main_step today line st))) as H.
  { unfold main_step.
    pose proof (turn_preserves P today line Hadd Hchange Hbd st HP) as Ht.
    by destruct (turn today line st) as [[[out continue]|e] st1]. }
  destruct (main_step today line st) as [[out [|]] st1]; simpl in *; [by apply IH|done].
Qed.

Lemma dict_set_keys_grow k v d :
  exists added, map fst (dict_set k v d) = map fst d ++ added.
Proof.
  destruct (dict_get k d) as [old|] eqn:H.
  - exists []. rewrite app_nil_r. by eapply dict_set_keys.
  - exists [k]. by rewrite (dict_set_new _ _ _ H), map_app.
Qed.

(** The three states [add] can leave: the one it found, that state with a
    record nothing refers to, or the book with the new record. *)
Lemma add_contact_cases args st :
  snd (add_contact args st) = st
  \/ (exists nm,
        snd (add_contact args st)
        = mkState (heap st ++ [mkRecord nm [] None]) (data st) (S (next_phone st)))
  \/ (exists nm phone,
        Phone.validate_format phone = true
        /\ snd (add_contact args st)
           = mkState (heap st ++ [mkRecord nm [mkPhone (next_phone st) phone] None])
                     (dict_set (lower nm) (length (heap st)) (data st))
                     (S (next_phone st))).
Proof.
  unfold add_contact, input_error, Body.add_contact.
  destruct args as [|nm [|phone [|? ?]]]; try (by left).
  unfold add_phone, add_record. unfold_m. cbn [phone_value].
  destruct (Phone.validate_format phone) eqn:Hv; cbn [heap data next_phone].
  - rewrite list_lookup_middle by done. cbn [heap data next_phone name phones birthday].
    rewrite insert_snoc. rewrite list_lookup_middle by done.
    cbn [heap data next_phone name phones birthday snd app].
    right. right. by exists nm, phone.
  - cbn [snd]. right. left. by exists nm.
Qed.

Lemma change_contact_data args st : data (snd (change_contact args st)) = data st.
Proof.
  unfold change_contact, input_error, Body.change_contact, find, edit_phone.
  unfold_m. repeat case_match; simplify_eq; simpl; done.
Qed.

(** The two states [add-birthday] can leave. *)
Lemma add_birthday_cases args st :
  snd (add_birthday args st) = st
  \/ (exists rid r bd,
        heap st !! rid = Some r
        /\ snd (add_birthday args st)
           = mkState (<[rid := mkRecord (name r) (phones r) (Some bd)]> (heap st))
                     (data st) (next_phone st)).
Proof.
  unfold add_birthday, input_error, Body.add_birthday.
  destruct args as [|nm [|bd [|? ?]]]; try (by left).
  unfold find, Record_add_birthday. unfold_m. cbn [birthday_value].
  destruct (dict_get (lower nm) (data st)) as [rid|]; [|by left].
  destruct (Birthday.validate_format bd); [|by left].
  destruct (heap st !! rid) as [r|] eqn:Hr; [|by left].
  cbn [snd]. right. by exists rid, r, (mkBirthday bd).
Qed.

(** X23: no command removes an entry or moves it: after any session the
    keys of the book are the keys it started with, in the same order,
    followed by the keys added since ([delete] is not reachable from the
    loop). *)
Theorem session_keeps_entries (today : date) (inputs : list pystr) (st : state) :
  exists added,
    map fst (data (snd (session today inputs st))) = map fst (data st) ++ added.
Proof.
  apply (session_preserves
           (fun s => exists added, map fst (data s) = map fst (data st) ++ added)).
  - intros a s [added Hs].
    destruct (add_contact_cases a s) as [->|[(nm & ->)|(nm & phone & _ & ->)]];
      cbn [data]; [by exists added|by exists added|].
    destruct (dict_set_keys_grow (lower nm) (length (heap s)) (data s)) as [more ->].
    rewrite Hs. exists (added ++ more). by rewrite app_assoc.
  - intros a s [added Hs]. rewrite change_contact_data. by exists added.
  - intros a s [added Hs].
    destruct (add_birthday_cases a s) as [->|(rid & r & bd & _ & ->)];
      cbn [data]; by exists added.
  - exists []. by rewrite app_nil_r.
Qed.

(** The invariant behind the next property. *)
Lemma one_phone_invariant (today : date) (inputs : list pystr) :
  let st := snd (session today inputs initial) in
  wf st
  /\ forall k rid, In (k, rid) (data st) ->
       exists r, heap st !! rid = Some r /\ one_valid_phone r.
Proof.
  simpl.
  apply (session_preserves
           (fun s => wf s
                     /\ forall k rid, In (k, rid) (data s) ->
                          exists r, heap s !! rid = Some r /\ one_valid_phone r)).
  - intros a s [Hwf Hone]. split; [by apply wf_add_contact|].
    destruct (add_contact_cases a s) as [->|[(nm & ->)|(nm & phone & Hv & ->)]];
      [done| |].
    + intros k rid Hin. cbn [data] in Hin.
      destruct (Hone k rid Hin) as (r & Hr & Hp).
      exists r. cbn [heap]. split; [by apply lookup_app_l_Some|done].
    + intros k rid Hin. cbn [data] in Hin.
      apply dict_set_In in Hin as [[-> ->]|Hin].
      * eexists. cbn [heap]. split; [by apply list_lookup_middle|].
        eexists. by split.
      * destruct (Hone k rid Hin) as (r & Hr & Hp).
        exists r. cbn [heap]. split; [by apply lookup_app_l_Some|done].
  - intros a s [Hwf Hone]. split; [by apply wf_change_contact|].
    destruct (change_contact_never_updates s a Hwf) as (msg & n & Heq & _).
    rewrite Heq. exact Hone.
  - intros a s [Hwf Hone]. split; [by apply wf_add_birthday|].
    destruct (add_birthday_cases a s) as [->|(rid0 & r0 & bd & Hr0 & ->)]; [done|].
    intros k rid Hin. cbn [data] in Hin.
    destruct (Hone k rid Hin) as (r & Hr & Hp). cbn [heap].
    destruct (decide (rid0 = rid)) as [->|Hne].
    + rewrite Hr in Hr0. injection Hr0 as <-.
      eexists. split; [apply list_lookup_insert_eq; by eapply lookup_lt_Some|].
      exact Hp.
    + exists r. split; [by rewrite list_lookup_insert_ne|done].
  - split; [apply wf_initial|]. by intros k rid [].
Qed.

(** X24: in every state of a session each contact of the book has exactly
    one phone, and its format is valid: no command adds a second phone,
    removes the phone or replaces it by an invalid one. *)
Theorem session_contacts_have_one_phone (today : date) (inputs : list pystr) :
  Forall one_valid_phone (entries (snd (session today inputs initial))).
Proof.
  destruct (one_phone_invariant today inputs) as [_ Hone].
  apply Forall_forall. intros r Hr. unfold entries in Hr.
  apply list_elem_of_omap in Hr as ([k rid] & Hin & Hlook).
  apply list_elem_of_In in Hin. destruct (Hone k rid Hin) as (r' & Hr' & Hp).
  cbn [snd] in Hlook. rewrite Hr' in Hlook. by injection Hlook as <-.
Qed.
